(** * OfflineImageStore: a shallow embedding of the offline image cache

    The store of react-native-image-offline (class [OfflineImageStore]) keeps
    a dictionary [entries] from cache keys to the place of the downloaded
    file, a dictionary [handlers] from source uris to the subscribed
    callbacks, and a small configuration record [store].  Every method is
    embedded as a function on that state that returns the new state together
    with the list of effects it performs on its collaborators (AsyncStorage,
    RNFetchBlob, the console and the subscribed handlers).

    JavaScript runs each callback to completion, so an asynchronous method is
    split where the source splits it: the part that runs when the method is
    called, and one function per [then] / [catch] / callback continuation.
    The order in which pending operations settle belongs to the environment
    and is an input of the model.

    The two dictionaries are plain objects, so reading a name also finds
    what they inherit from [Object.prototype]; the model keeps that lookup.

    The React component [OfflineImage] takes no part in the properties below
    and is left out. *)

From Stdlib Require Import ZArith String Ascii List.
From stdpp Require Import gmap strings list fin_maps.

Local Open Scope Z_scope.

(** ** JavaScript string primitives used by the store

    The store cuts its uris at ['/'], ['?'] and ['.'] only.  A string is
    kept as its sequence of bytes: a cut at one of these characters falls at
    the same place as in the UTF-16 string of the source. *)

Module JsString.

(** [s.indexOf(c)] for a one-character [c]: -1 when [c] does not occur. *)
Fixpoint indexOf_from (c : ascii) (s : string) (i : Z) : Z :=
  match s with
  | EmptyString => -1
  | String a t => if Ascii.eqb a c then i else indexOf_from c t (i + 1)
  end.

Definition indexOf (c : ascii) (s : string) : Z := indexOf_from c s 0.

(** [s.lastIndexOf(c)]: -1 when [c] does not occur. *)
Fixpoint lastIndexOf_from (c : ascii) (s : string) (i acc : Z) : Z :=
  match s with
  | EmptyString => acc
  | String a t =>
      lastIndexOf_from c t (i + 1) (if Ascii.eqb a c then i else acc)
  end.

Definition lastIndexOf (c : ascii) (s : string) : Z :=
  lastIndexOf_from c s 0 (-1).

Fixpoint drop (n : nat) (s : string) : string :=
  match n, s with
  | O, _ => s
  | S _, EmptyString => EmptyString
  | S m, String _ t => drop m t
  end.

(** [s.substring(start)]: a negative [start] counts as 0 and a [start]
    past the end gives the empty string. *)
Definition substring (start : Z) (s : string) : string :=
  drop (Z.to_nat start) s.

(** [s.split(c)[0]]: what comes before the first [c], all of [s] when
    there is none. *)
Fixpoint split0 (c : ascii) (s : string) : string :=
  match s with
  | EmptyString => EmptyString
  | String a t => if Ascii.eqb a c then EmptyString else String a (split0 c t)
  end.

(** Truthiness of a string value. *)
Definition truthy (s : string) : bool :=
  match s with EmptyString => false | String _ _ => true end.

End JsString.

(** ** Data model *)

(** A value of the [entries] dictionary, through the three properties the
    store reads and writes.  [createdOn] is the string that
    [new Date().toString()] gave when the entry was made; an entry object
    can lack it ([None]). *)
Record Entry := mkEntry {
  createdOn : option string;
  basePath : string;
  localUriPath : string;
}.

(** What reading [obj[k]] yields on one of the two dictionaries.  Both are
    plain objects ([{}]), so a name that is not one of their own properties
    is looked up in their prototype. *)
Inductive Value (A : Type) :=
| Undefined
| Item (a : A)             (* an entry object, or an array of handlers *)
| Method (arity : nat)     (* a method of [Object.prototype], with its [length] *)
| Prototype                (* [Object.prototype] itself, under [__proto__] *)
| Text (s : string).       (* a string *)

Arguments Undefined {A}.
Arguments Item {A} a.
Arguments Method {A} arity.
Arguments Prototype {A}.
Arguments Text {A} s.

(** Truthiness of what has been read. *)
Definition truthyValue {A : Type} (v : Value A) : bool :=
  match v with
  | Undefined => false
  | Text s => JsString.truthy s
  | _ => true
  end.

(** [props.source] *)
Record Source := mkSource {
  uri : string;
  method : option string;
  headers : option (list (string * string));
}.

(** The [props] object handed to the store; an absent [id] is [None]. *)
Record Props := mkProps {
  id : option string;
  ignoreQueryString : bool;
  reloadImage : bool;
  source : Source;
}.

(** [this.store] *)
Record Store := mkStore {
  name : string;
  storeImageTimeout : Z;
  debugMode : bool;
}.

(** A subscribed callback: its identity and whether a call of it throws. *)
Record Handler := mkHandler {
  hid : nat;
  throws : bool;
}.

(** The singleton instance.  [entries] and [handlers] hold the own
    properties of the two dictionaries.  [entriesProto] is the prototype of
    [this.entries] when an assignment to [__proto__] has replaced it by an
    entry object, and [None] as long as it is [Object.prototype]. *)
Record State := mkState {
  entries : gmap string Entry;
  store : Store;
  handlers : gmap string (list Handler);
  entriesProto : option Entry;
}.

(** The [config] object of [restore]. *)
Record Config := mkConfig {
  cfg_name : option string;
  imageRemoveTimeout : option Z;
  cfg_debugMode : bool;
}.

(** What the store does to its collaborators. *)
Inductive Effect :=
| Log (args : list string)          (* console.log, the string arguments *)
| GetItem (key : string)            (* AsyncStorage.getItem *)
| SetItem (key value : string)      (* AsyncStorage.setItem *)
| Unlink (path : string)            (* RNFetchBlob.fs.unlink *)
| Fetch (path meth url : string) (hdrs : option (list (string * string)))
                                    (* RNFetchBlob.config({path}).fetch *)
| Call (h : nat) (url path : string) (* handler(uri, path) *)
| Completion                        (* onRestoreCompletion() *)
| Uncaught (what : string).         (* an exception that leaves the store *)

(** The platform the store is linked against. *)
Class Platform := {
  (** [crypto-js/sha1], read through its hexadecimal rendering *)
  SHA1 : string -> string;
  (** [RNFetchBlob.fs.dirs.CacheDir] *)
  CacheDir : string;
  (** [JSON.stringify] on the entry dictionary *)
  JSON_stringify : gmap string Entry -> string;
  (** [JSON.parse] of a stored blob; [None] when it throws *)
  JSON_parse : string -> option (gmap string Entry);
  (** the values of [Date] *)
  JsDate : Type;
  (** [new Date(date)], [date] being [undefined] for [None] *)
  Date_new : option string -> JsDate;
  (** [d.setSeconds(d.getSeconds() + seconds)] *)
  Date_addSeconds : JsDate -> Z -> JsDate;
  (** [d < new Date()], with the clock in milliseconds *)
  Date_before : JsDate -> Z -> bool;
  (** the methods of [Object.prototype], by name, each with its [length] *)
  Object_prototype : string -> option nat;
}.

Definition setEntries (s : State) (m : gmap string Entry) : State :=
  mkState m (store s) (handlers s) (entriesProto s).

Definition setHandlers (s : State) (m : gmap string (list Handler)) : State :=
  mkState (entries s) (store s) m (entriesProto s).

Definition setStore (s : State) (st : Store) : State :=
  mkState (entries s) st (handlers s) (entriesProto s).

Definition setEntriesProto (s : State) (p : option Entry) : State :=
  mkState (entries s) (store s) (handlers s) p.

(** ** The store *)

Section OfflineImageStore.
Context `{Platform}.

(** [new OfflineImageStore('RN_Default_ImageStore', 259200)] *)
Definition instance : State :=
  mkState ∅ (mkStore "RN_Default_ImageStore" 259200 false) ∅ None.

Definition log (s : State) (args : list string) : list Effect :=
  if debugMode (store s) then [Log args] else [].

Definition getBaseDir (s : State) : string :=
  CacheDir +:+ "/" +:+ name (store s).

(** The AsyncStorage key written as [`@${this.store.name}:uris`]. *)
Definition storageKey (s : State) : string :=
  "@" +:+ name (store s) +:+ ":uris".

(** [_getEntryProps]: the pair [{ hash, extension }]. *)
Definition _getEntryProps (props : Props) : string * string :=
  let u := uri (source props) in
  let path :=
    JsString.split0 "?" (JsString.substring (JsString.lastIndexOf "/" u) u) in
  let extension :=
    if JsString.indexOf "." path =? -1 then ".jpg"
    else JsString.substring (JsString.lastIndexOf "." path) path in
  let hash :=
    match id props with
    | Some i =>
        if JsString.truthy i then i
        else SHA1 (if ignoreQueryString props then JsString.split0 "?" u else u)
    | None => SHA1 (if ignoreQueryString props then JsString.split0 "?" u else u)
    end in
  (hash, extension).

(** What a dictionary finds in [Object.prototype] under a name. *)
Definition inherited {A : Type} (k : string) : Value A :=
  if decide (k = "__proto__") then Prototype
  else match Object_prototype k with
       | Some n => Method n
       | None => Undefined
       end.

(** [this.entries[k]]: the own property, else what the prototype gives.
    A prototype that is an entry object gives its three properties, and
    behind it [Object.prototype]. *)
Definition entries_get (s : State) (k : string) : Value Entry :=
  match entries s !! k with
  | Some e => Item e
  | None =>
      match entriesProto s with
      | Some p =>
          if decide (k = "__proto__") then Item p
          else if decide (k = "basePath") then Text (basePath p)
          else if decide (k = "localUriPath") then Text (localUriPath p)
          else match (if decide (k = "createdOn") then createdOn p else None) with
               | Some c => Text c
               | None => inherited k
               end
      | None => inherited k
      end
  end.

(** [this.entries[k] = e]: an own property, but for [__proto__], whose
    setter makes [e] the prototype of the dictionary. *)
Definition entries_set (s : State) (k : string) (e : Entry) : State :=
  match entries s !! k with
  | Some _ => setEntries s (<[k := e]> (entries s))
  | None =>
      if decide (k = "__proto__") then setEntriesProto s (Some e)
      else setEntries s (<[k := e]> (entries s))
  end.

(** [this.handlers[u]] *)
Definition handlers_get (s : State) (u : string) : Value (list Handler) :=
  match handlers s !! u with
  | Some hs => Item hs
  | None => inherited u
  end.

Definition _getEntry (s : State) (props : Props) : Value Entry :=
  entries_get s (_getEntryProps props).1.

Definition localPath (e : Entry) : string :=
  basePath e +:+ "/" +:+ localUriPath e.

(** [getImageOfflinePath]: the returned value ([None] for [undefined]) and
    the debug output.  Of what the lookup can yield only an entry object
    has a [basePath]. *)
Definition getImageOfflinePath (s : State) (props : Props)
  : option string * list Effect :=
  match _getEntry s props with
  | Item entry =>
      if decide (basePath entry = getBaseDir s)
      then (Some (localPath entry),
            log s ["Image exist offline"; localUriPath entry])
      else (None, log s ["Image not exist offline"; uri (source props)])
  | _ => (None, log s ["Image not exist offline"; uri (source props)])
  end.

(** *** Subscriptions and notification *)

(** The body of [handlers.forEach] in [_notify]: the calls made, and
    [false] when one of the handlers threw, which ends the loop. *)
Fixpoint notify_each (s : State) (u path : string) (hs : list Handler)
  : list Effect * bool :=
  match hs with
  | [] => ([], true)
  | h :: rest =>
      let here := log s ["Notify handler called"; u] ++ [Call (hid h) u path] in
      if throws h then (here, false)
      else let '(t, fine) := notify_each s u path rest in (here ++ t, fine)
  end.

(** [_notify]: [false] when an exception ends it.  What is read under the
    uri need not be an array: a method of [Object.prototype] with a
    positive [length], or a string, passes the test and has no [forEach],
    which is a TypeError. *)
Definition _notify (s : State) (u : string) (entry : Entry)
  : list Effect * bool :=
  match handlers_get s u with
  | Item hs => notify_each s u (localPath entry) hs
  | Method n => ([], negb (0 <? n)%nat)
  | Text t => ([], negb (JsString.truthy t))
  | Undefined | Prototype => ([], true)
  end.

(** The registration at the head of [subscribe]; [None] is the TypeError
    of [push] on what is not an array. *)
Definition subscribe_register (s : State) (handler : Handler) (props : Props)
  : option State :=
  let u := uri (source props) in
  match handlers_get s u with
  | Item hs => Some (setHandlers s (<[u := hs ++ [handler]]> (handlers s)))
  | v =>
      if truthyValue v then None
      else Some (setHandlers s (<[u := [handler]]> (handlers s)))
  end.

(** The store after the registration, which is the store as it was when
    the registration throws. *)
Definition register (s : State) (handler : Handler) (props : Props) : State :=
  default s (subscribe_register s handler props).

Definition unsubscribe (s : State) (src : Source) : State :=
  setHandlers s (delete (uri src) (handlers s)).

(** [this.entries[uri] !== undefined] *)
Definition isImageExistOffline (s : State) (u : string) : bool :=
  match entries_get s u with
  | Undefined => false
  | _ => true
  end.

(** *** Download *)

(** [_addEntry]: [now] is the value of [new Date().toString()].  The
    spread of an entry object copies its [createdOn]; the spread of any
    other truthy value brings none. *)
Definition _addEntry (s : State) (hash localUri now : string)
  : State * Entry :=
  let e :=
    match entries_get s hash with
    | Item entry => mkEntry (createdOn entry) (getBaseDir s) localUri
    | v =>
        if truthyValue v then mkEntry None (getBaseDir s) localUri
        else mkEntry (Some now) (getBaseDir s) localUri
    end in
  (entries_set s hash e, e).

Definition filename (props : Props) : string :=
  (_getEntryProps props).1 +:+ (_getEntryProps props).2.

(** [_downloadImage] when called: the request handed to RNFetchBlob, which
    fetches the uri and writes the file at [path]; its promise settles once
    for both. *)
Definition _downloadImage (s : State) (props : Props) : list Effect :=
  [Fetch (getBaseDir s +:+ "/" +:+ filename props)
         (default "GET" (method (source props)))
         (uri (source props))
         (headers (source props))].

(** The [then] of [_downloadImage], up to the [await] of
    [_updateOfflineStore]: the entry is recorded and the dictionary is
    handed to AsyncStorage. *)
Definition _downloadImage_then (s : State) (props : Props) (now : string)
  : State * Entry * list Effect :=
  let '(s1, entry) := _addEntry s (_getEntryProps props).1 (filename props) now in
  (s1, entry, [SetItem (storageKey s1) (JSON_stringify (entries s1))]).

(** The [catch] of [_downloadImage]. *)
Definition _downloadImage_catch (s : State) (props : Props) : list Effect :=
  log s ["Failed to download image"; uri (source props)].

(** [_updateOfflineStore] after its [await]: [stored] tells whether
    [AsyncStorage.setItem] resolved.  An exception of a handler is caught
    by the same [catch] as a failed write. *)
Definition _updateOfflineStore_resume
    (s : State) (u : string) (entry : Entry) (stored : bool) : list Effect :=
  if stored then
    let '(t, fine) := _notify s u entry in
    if fine then t else t ++ log s ["Offline image entry update failed"]
  else log s ["Offline image entry update failed"].

(** [_getImage] when called: its effects, and whether a download was
    started.  An exception raised while the handlers are notified leaves
    the method before the reload. *)
Definition _getImage (s : State) (props : Props) : list Effect * bool :=
  let u := uri (source props) in
  match _getEntry s props with
  | Item entry =>
      if decide (basePath entry = getBaseDir s) then
        let '(t, fine) := _notify s u entry in
        let t1 := log s ["Image exist offline"; u] ++ t in
        if fine then
          if reloadImage props then
            (t1 ++ log s ["reloadImage is set to true for uri:"; u]
                ++ _downloadImage s props, true)
          else (t1, false)
        else (t1 ++ [Uncaught "handler"], false)
      else (_downloadImage s props, true)
  | v =>
      if truthyValue v then (_downloadImage s props, true)
      else (log s ["Image not exist offline"; u] ++ _downloadImage s props, true)
  end.

(** *** The event loop around the store

    A pending operation of the platform, with what its continuation
    captured. *)
Inductive Task :=
| TFetch (props : Props)                  (* the fetch of [_downloadImage] *)
| TSetItem (u : string) (entry : Entry).  (* the write of [_updateOfflineStore] *)

Record World := mkWorld {
  state : State;
  tasks : list Task;
}.

(** What happens next: a call of a public method, or the [i]-th pending
    operation settles ([ok] for resolved, [now] for the clock). *)
Inductive Input :=
| ISubscribe (handler : Handler) (props : Props)
| IPrefetch (props : Props)
| IUnsubscribe (src : Source)
| ISettle (i : nat) (ok : bool) (now : string).

Definition started (b : bool) (props : Props) : list Task :=
  if b then [TFetch props] else [].

Definition settle (w : World) (i : nat) (ok : bool) (now : string)
  : World * list Effect :=
  match tasks w !! i with
  | None => (w, [])
  | Some (TFetch props) =>
      if ok then
        let '(s1, entry, t) := _downloadImage_then (state w) props now in
        (mkWorld s1 (delete i (tasks w) ++ [TSetItem (uri (source props)) entry]), t)
      else
        (mkWorld (state w) (delete i (tasks w)),
         _downloadImage_catch (state w) props)
  | Some (TSetItem u entry) =>
      (mkWorld (state w) (delete i (tasks w)),
       _updateOfflineStore_resume (state w) u entry ok)
  end.

Definition step (w : World) (i : Input) : World * list Effect :=
  match i with
  | ISubscribe handler props =>
      match subscribe_register (state w) handler props with
      | Some s1 =>
          let '(t, b) := _getImage s1 props in
          (mkWorld s1 (tasks w ++ started b props), t)
      | None => (w, [Uncaught "TypeError: push is not a function"])
      end
  | IPrefetch props =>
      let '(t, b) := _getImage (state w) props in
      (mkWorld (state w) (tasks w ++ started b props), t)
  | IUnsubscribe src => (mkWorld (unsubscribe (state w) src) (tasks w), [])
  | ISettle i ok now => settle w i ok now
  end.

Fixpoint run (w : World) (inputs : list Input) : World * list Effect :=
  match inputs with
  | [] => (w, [])
  | i :: rest =>
      let '(w1, t1) := step w i in
      let '(w2, t2) := run w1 rest in
      (w2, t1 ++ t2)
  end.

(** *** Expiry sweep and restore *)

(** [_addTime] *)
Definition _addTime (date : option string) (seconds : Z) : JsDate :=
  Date_addSeconds (Date_new date) seconds.

(** [_addTime(createdOn, storeImageTimeout) < new Date()], with [now] the
    clock in milliseconds. *)
Definition isExpired (s : State) (now : Z) (e : Entry) : bool :=
  Date_before (_addTime (createdOn e) (storeImageTimeout (store s))) now.

(** [_getExpiredImages]: the keys to remove, among the own keys of the
    dictionary.  [Object.keys] lists integer-like keys first and the others
    in the order of their insertion; the dictionary of the model keeps no
    such order and the keys come in the order of [map_to_list]. *)
Definition _getExpiredImages (s : State) (now : Z) : list string :=
  omap (fun kv => if isExpired s now kv.2 then Some kv.1 else None)
       (map_to_list (entries s)).

(** The path handed to [unlink] for a key of the dictionary. *)
Definition unlinkPath (s : State) (k : string) : string :=
  from_option localPath "" (entries s !! k).

(** One [unlink] promise settles: its [then] or its [catch]. *)
Definition unlink_settled (s : State) (k : string) (ok : bool)
  : State * list Effect :=
  if ok then (setEntries s (delete k (entries s)), [])
  else (s, log s ["unable to remove image"; k]).

(** The [unlink] promises settle in the order [order], each with the
    outcome [ok] gives for its key. *)
Fixpoint unlinks_settled (s : State) (ok : string -> bool) (order : list string)
  : State * list Effect :=
  match order with
  | [] => (s, [])
  | k :: rest =>
      let '(s1, t1) := unlink_settled s k (ok k) in
      let '(s2, t2) := unlinks_settled s1 ok rest in
      (s2, t1 ++ t2)
  end.

(** A call of the completion callback; [cb] tells whether the caller
    passed one. *)
Definition onRestoreCompletion (cb : bool) : list Effect :=
  if cb then [Completion]
  else [Uncaught "TypeError: onRestoreCompletion is not a function"].

(** [_updateAsyncStorage]: the write, and its callback once the write has
    completed. *)
Definition _updateAsyncStorage (s : State) (cb : bool) : list Effect :=
  SetItem (storageKey s) (JSON_stringify (entries s))
  :: (if cb then [Completion] else []).

(** [_removeExpiredImages], run until its last callback.  Every [unlink]
    promise carries its own [catch], so [Promise.all] resolves and its
    [catch] is never taken. *)
Definition _removeExpiredImages
    (s : State) (now : Z) (cb : bool) (ok : string -> bool) (order : list string)
  : State * list Effect :=
  let uriListToRemove := _getExpiredImages s now in
  let issued :=
    log s ["uris to remove from offline store"]
    ++ map (fun k => Unlink (unlinkPath s k)) uriListToRemove in
  if (0 <? length uriListToRemove)%nat then
    let '(s1, t1) := unlinks_settled s ok order in
    (s1, issued ++ log s ["Found images to remove:"] ++ t1
           ++ log s1 ["removeExpiredImages completed callback"]
           ++ _updateAsyncStorage s1 cb)
  else
    (s, issued ++ log s ["No images to remove:"] ++ onRestoreCompletion cb).

(** [restore] when called: [inl] is the thrown message. *)
Definition restore (s : State) (config : Config)
  : string + State * list Effect :=
  match cfg_name config with
  | None => inl "Offline image store name is missing"
  | Some n =>
      if JsString.truthy n then
        let st := store s in
        let timeout :=
          match imageRemoveTimeout config with
          | Some t => if t =? 0 then storeImageTimeout st else t
          | None => storeImageTimeout st
          end in
        let s1 := setStore s (mkStore n timeout (cfg_debugMode config || debugMode st)) in
        inr (s1, [GetItem (storageKey s1)])
      else inl "Offline image store name is missing"
  end.

(** [Object.assign(this.entries, parsed)]: every own key of the parsed
    dictionary is assigned to [this.entries] in turn. *)
Definition Object_assign (s : State) (m : gmap string Entry) : State :=
  map_fold (fun k e acc => entries_set acc k e) s m.

(** The callback of [AsyncStorage.getItem] in [restore]; [uris] is the
    stored blob, [None] for [null]. *)
Definition restore_onGetItem
    (s : State) (uris : option string)
    (now : Z) (cb : bool) (ok : string -> bool) (order : list string)
  : State * list Effect :=
  let merged :=
    match uris with
    | None => Some s
    | Some blob =>
        match JSON_parse blob with
        | Some m => Some (Object_assign s m)
        | None => None
        end
    end in
  match merged with
  | None => (s, [Uncaught "SyntaxError"])
  | Some s1 =>
      let '(s2, t) := _removeExpiredImages s1 now cb ok order in
      (s2, log s1 ["Restored offline images entry dictionary"] ++ t)
  end.

End OfflineImageStore.

(** ** Vocabulary of the statements *)

(** The uri that is hashed: without its query string when
    [ignoreQueryString] is set. *)
Definition uriAfterPolicy (props : Props) : string :=
  if ignoreQueryString props
  then JsString.split0 "?" (uri (source props))
  else uri (source props).

(** No usable explicit identity: [id] is absent or the empty string. *)
Definition noIdentity (props : Props) : Prop :=
  id props = None \/ id props = Some EmptyString.

(** The calls of handlers in a list of effects, in order. *)
Definition calls (t : list Effect) : list (nat * string * string) :=
  omap (fun e => match e with Call h u p => Some (h, u, p) | _ => None end) t.

(** The downloads started in a list of effects: target path and uri. *)
Definition fetched (t : list Effect) : list (string * string) :=
  omap (fun e => match e with Fetch p _ u _ => Some (p, u) | _ => None end) t.

(** The writes to AsyncStorage in a list of effects: key and value. *)
Definition writes (t : list Effect) : list (string * string) :=
  omap (fun e => match e with SetItem k v => Some (k, v) | _ => None end) t.

(** The keys read from AsyncStorage in a list of effects. *)
Definition reads (t : list Effect) : list string :=
  omap (fun e => match e with GetItem k => Some k | _ => None end) t.

(** The call a handler receives for the uri [u] and the entry [e]. *)
Definition callOf (u : string) (e : Entry) (h : Handler)
  : nat * string * string :=
  (hid h, u, localPath e).

(** The dictionary has an entry for the key of [props], written under
    the current base directory. *)
Definition validlyCached `{Platform} (s : State) (props : Props) : Prop :=
  exists e, _getEntry s props = Item e /\ basePath e = getBaseDir s.

(** The file a download of [props] is written to. *)
Definition target `{Platform} (s : State) (props : Props) : string :=
  getBaseDir s +:+ "/" +:+ filename props.

(** The descriptor of a [subscribe] or [prefetch] request. *)
Definition requestProps `{Platform} (i : Input) : option Props :=
  match i with
  | ISubscribe _ props | IPrefetch props => Some props
  | _ => None
  end.

(** Effects that reach neither AsyncStorage nor the caller of [restore]. *)
Definition silent (e : Effect) : Prop :=
  match e with
  | Log _ | Unlink _ => True
  | _ => False
  end.

(** Effects other than a read or a write of AsyncStorage. *)
Definition offStorage (e : Effect) : Prop :=
  match e with
  | GetItem _ | SetItem _ _ => False
  | _ => True
  end.

(** ** A concrete platform, to run the store on examples *)

Module Sample.

Fixpoint digits (s : string) (acc : Z) : option Z :=
  match s with
  | EmptyString => Some acc
  | String c t =>
      let n := Z.of_nat (nat_of_ascii c) - 48 in
      if (0 <=? n) && (n <=? 9) then digits t (10 * acc + n) else None
  end.

(** Dates are written as their number of milliseconds; anything else is
    an invalid date. *)
Definition date_new (date : option string) : option Z :=
  match date with
  | Some (String c t) => digits (String c t) 0
  | _ => None
  end.

Definition date_addSeconds (d : option Z) (seconds : Z) : option Z :=
  match d with
  | Some t => Some (t + 1000 * seconds)
  | None => None
  end.

Definition date_before (d : option Z) (now : Z) : bool :=
  match d with
  | Some t => t <? now
  | None => false
  end.

(** The methods of [Object.prototype] and their [length]. *)
Definition object_prototype (k : string) : option nat :=
  if String.eqb k "constructor" then Some 1%nat
  else if String.eqb k "hasOwnProperty" then Some 1%nat
  else if String.eqb k "isPrototypeOf" then Some 1%nat
  else if String.eqb k "propertyIsEnumerable" then Some 1%nat
  else if String.eqb k "toLocaleString" then Some 0%nat
  else if String.eqb k "toString" then Some 0%nat
  else if String.eqb k "valueOf" then Some 0%nat
  else if String.eqb k "__defineGetter__" then Some 2%nat
  else if String.eqb k "__defineSetter__" then Some 2%nat
  else if String.eqb k "__lookupGetter__" then Some 1%nat
  else if String.eqb k "__lookupSetter__" then Some 1%nat
  else None.

Definition render_entry (kv : string * Entry) : string :=
  kv.1 +:+ "=" +:+ default "" (createdOn kv.2) +:+ "|" +:+ basePath kv.2
       +:+ "|" +:+ localUriPath kv.2 +:+ ";".

Definition render (m : gmap string Entry) : string :=
  String.concat "" (map render_entry (map_to_list m)).

Definition platform : Platform :=
  {| SHA1 := fun s => "sha1:" +:+ s;
     CacheDir := "/cache";
     JSON_stringify := render;
     JSON_parse := fun _ => None;
     JsDate := option Z;
     Date_new := date_new;
     Date_addSeconds := date_addSeconds;
     Date_before := date_before;
     Object_prototype := object_prototype |}.

Definition png : Props :=
  mkProps None false false (mkSource "https://example.com/a.png" None None).

Definition logo : Props :=
  mkProps (Some "logo") false false
          (mkSource "https://cdn.x/img.png?v=2" None None).

End Sample.

Module SampleCached.

Definition entry : Entry :=
  mkEntry (Some "1000"%string) "/cache/RN_Default_ImageStore" "sha1:https://example.com/a.png.png".

Definition cached : State :=
  mkState {[ "sha1:https://example.com/a.png"%string := entry ]}
          (mkStore "RN_Default_ImageStore" 259200 false) ∅ None.

Definition renamed : Config := mkConfig (Some "Gallery"%string) None false.

Definition moved : State :=
  mkState {[ "sha1:https://example.com/a.png"%string := entry ]}
          (mkStore "Gallery" 259200 false) ∅ None.

End SampleCached.

Module SampleNotify.

Definition first : Handler := mkHandler 1 true.
Definition second : Handler := mkHandler 2 false.
Definition address : string := "https://example.com/a.png".

Definition entry : Entry :=
  mkEntry (Some "1000"%string) "/cache/RN_Default_ImageStore" "sha1:https://example.com/a.png.png".

Definition subscribed : State :=
  mkState {[ "sha1:https://example.com/a.png"%string := entry ]}
          (mkStore "RN_Default_ImageStore" 259200 false)
          {[ address := [first; second] ]} None.

End SampleNotify.

Module SampleLoop.

Definition idle : World := mkWorld instance [].

Definition twice : list Input :=
  [ISubscribe SampleNotify.second Sample.png; ISubscribe (mkHandler 3 false) Sample.png].

End SampleLoop.

Module SampleDownload.

(** The first subscription to the uncached image has started its fetch. *)
Definition pending : World := mkWorld instance [TFetch Sample.png].

(** A reload of the cached image has started its fetch. *)
Definition reloading : World := mkWorld SampleCached.cached [TFetch Sample.png].

Definition key : string := "sha1:https://example.com/a.png".

End SampleDownload.

Module SampleSweep.

Definition logo : Entry := mkEntry (Some "1000"%string) "/cache/Gallery" "logo.png".
Definition banner : Entry := mkEntry (Some "900000000"%string) "/cache/Gallery" "banner.jpg".

(** Two entries under a time-to-live of 100 seconds, in debug mode. *)
Definition aged : State :=
  mkState {[ "logo"%string := logo; "banner"%string := banner ]}
          (mkStore "Gallery" 100 true) ∅ None.

Definition never (k : string) : bool := false.
Definition always (k : string) : bool := true.

End SampleSweep.

(** ** Further vocabulary *)

(** The character [c] occurs in [s]. *)
Fixpoint occurs (c : ascii) (s : string) : bool :=
  match s with
  | EmptyString => false
  | String a t => Ascii.eqb a c || occurs c t
  end.

(** The files deleted in a list of effects, in order. *)
Definition unlinked (t : list Effect) : list string :=
  omap (fun e => match e with Unlink p => Some p | _ => None end) t.

(** The exceptions that leave the store in a list of effects. *)
Definition uncaught (t : list Effect) : list string :=
  omap (fun e => match e with Uncaught m => Some m | _ => None end) t.

(** How often the completion callback is called in a list of effects. *)
Definition completions (t : list Effect) : nat :=
  length (omap (fun e => match e with Completion => Some tt | _ => None end) t).

(** Every entry lies under the current base directory, in the file named
    after its key. *)
Definition wellPlaced `{Platform} (s : State) : Prop :=
  forall k e, entries s !! k = Some e ->
    basePath e = getBaseDir s
    /\ exists props, k = (_getEntryProps props).1 /\ localUriPath e = filename props.

(** An effect of a notification: a debug line or the call of a handler. *)
Definition notifying (e : Effect) : Prop :=
  match e with
  | Log _ | Call _ _ _ => True
  | _ => False
  end.

Module SampleRequests.

(** The cached image, asked for with a forced reload. *)
Definition reload : Props :=
  mkProps None false true (mkSource "https://example.com/a.png" None None).

(** The image is cached and nobody has subscribed. *)
Definition quiet : World := mkWorld SampleCached.cached [].

(** The image is cached; of its two subscribers the first throws. *)
Definition noisy : World := mkWorld SampleNotify.subscribed [].

(** A write of the dictionary is pending for the two subscribers. *)
Definition writing : World :=
  mkWorld SampleNotify.subscribed
          [TSetItem SampleNotify.address SampleNotify.entry].

End SampleRequests.

(** ** Clearing the store *)

(** [clearStore], run until its last callback.  [removed] tells whether the
    [unlink] of the base directory resolved.  Its [then] assigns
    [this.entries = {}].  The exported store has been given to
    [Object.freeze]; on a frozen object that assignment throws a TypeError
    in the strict code of the class, and the [catch] of the chain receives
    it.  [frozen] tells whether the store object is frozen, as the exported
    one is. *)
Definition clearStore `{Platform} (frozen : bool) (s : State) (cb removed : bool)
  : State * list Effect :=
  let failed := log s ["unable to remove offline store"] in
  if removed then
    let removedLog := log s ["Removed offline image store completely!"] in
    if frozen then (s, Unlink (getBaseDir s) :: removedLog ++ failed)
    else
      let s1 := setEntriesProto (setEntries s ∅) None in
      (s1, Unlink (getBaseDir s) :: removedLog ++ _updateAsyncStorage s1 cb)
  else (s, Unlink (getBaseDir s) :: failed).

Module SampleRestore.

(** What an earlier run of the application has left in AsyncStorage. *)
Definition saved : gmap string Entry :=
  {[ "logo"%string := mkEntry (Some "900000000"%string) "/cache/Gallery" "logo.v2.png" ]}.

(** A platform whose [JSON.parse] reads that blob back. *)
Definition platform : Platform :=
  {| SHA1 := fun s => "sha1:" +:+ s;
     CacheDir := "/cache";
     JSON_stringify := Sample.render;
     JSON_parse := fun blob =>
       if String.eqb blob (Sample.render saved) then Some saved else None;
     JsDate := option Z;
     Date_new := Sample.date_new;
     Date_addSeconds := Sample.date_addSeconds;
     Date_before := Sample.date_before;
     Object_prototype := Sample.object_prototype |}.

Definition blob : string := Sample.render saved.

End SampleRestore.

(** An effect that deletes no file, reads nothing from AsyncStorage and
    does not signal completion. *)
Definition keeping (e : Effect) : Prop :=
  match e with
  | Unlink _ | GetItem _ | Completion => False
  | _ => True
  end.

Module SampleKeys.

(** Descriptors whose explicit identities are the keys of [SampleSweep.aged]. *)
Definition logo : Props :=
  mkProps (Some "logo"%string) false false
          (mkSource "https://cdn.x/img.png?v=2" None None).

Definition banner : Props :=
  mkProps (Some "banner"%string) false false
          (mkSource "https://cdn.x/banner" None None).

End SampleKeys.

Module SampleQuery.

(** One image under two query strings, asked for with
    [ignoreQueryString], and once without. *)
Definition versioned : Props :=
  mkProps None true false (mkSource "https://example.com/a.png?v=2" None None).

Definition other : Props :=
  mkProps None true false (mkSource "https://example.com/a.png?v=3&w=1" None None).

Definition exact : Props :=
  mkProps None false false (mkSource "https://example.com/a.png?v=2" None None).

End SampleQuery.

(** ** Names the prototype knows *)

(** A name under which [Object.prototype] holds nothing. *)
Definition plainName `{Platform} (k : string) : Prop :=
  k <> "__proto__"%string /\ Object_prototype k = None.

(** A name that neither [Object.prototype] nor an entry object given to the
    dictionary as its prototype holds anything under. *)
Definition plainKey `{Platform} (k : string) : Prop :=
  plainName k /\ k <> "basePath"%string /\ k <> "localUriPath"%string
  /\ k <> "createdOn"%string.

(** An input whose call is not rejected: a [subscribe] whose registration
    does not throw, or any other input. *)
Definition accepted `{Platform} (s : State) (i : Input) : bool :=
  match i with
  | ISubscribe handler props =>
      match subscribe_register s handler props with
      | Some _ => true
      | None => false
      end
  | _ => true
  end.

(** [s1] has the dictionary of entries and the configuration of [s]. *)
Definition sameDictionary (s s1 : State) : Prop :=
  entries s1 = entries s /\ store s1 = store s
  /\ entriesProto s1 = entriesProto s.

Module SampleInherited.

(** A descriptor whose explicit identity is the name of a method of
    [Object.prototype]. *)
Definition props : Props :=
  mkProps (Some "constructor"%string) false false
          (mkSource "https://example.com/a.png" None None).

(** Its first download is pending on the store as it is constructed. *)
Definition pending : World := mkWorld instance [TFetch props].

(** A descriptor whose uri is such a name. *)
Definition named : Props :=
  mkProps None false false (mkSource "constructor" None None).

End SampleInherited.

Module SampleAwaited.

(** A handler has subscribed to the uncached image. *)
Definition subscribed : State :=
  mkState ∅ (mkStore "RN_Default_ImageStore" 259200 false)
          {[ SampleNotify.address := [SampleNotify.second] ]} None.

(** The fetch of that subscription is pending. *)
Definition fetching : World := mkWorld subscribed [TFetch Sample.png].

End SampleAwaited.

(** * Properties of the store *)

(** ** JavaScript strings *)

Section Strings.

Lemma occurs_app (c : ascii) (a b : string) :
  occurs c (a +:+ b) = occurs c a || occurs c b.
Proof.
  induction a as [| x a IH]; [reflexivity |].
  simpl. rewrite IH. apply orb_assoc.
Qed.

Lemma drop_app_length (pre t : string) :
  JsString.drop (String.length pre) (pre +:+ t) = t.
Proof.
  induction pre as [| x pre IH]; simpl; [destruct t; reflexivity | exact IH].
Qed.

Lemma lastIndexOf_from_cases (c : ascii) (s : string) (i acc : Z) :
  (occurs c s = false /\ JsString.lastIndexOf_from c s i acc = acc)
  \/ (exists pre t,
        s = pre +:+ String c t /\ occurs c t = false
        /\ JsString.lastIndexOf_from c s i acc = i + Z.of_nat (String.length pre)).
Proof.
  revert i acc. induction s as [| a s IH]; intros i acc; simpl; [left; auto |].
  destruct (IH (i + 1) (if Ascii.eqb a c then i else acc))
    as [[Hno Hres] | (pre & t & -> & Hno & Hres)].
  - destruct (Ascii.eqb a c) eqn:Hac.
    + right. apply Ascii.eqb_eq in Hac as ->.
      exists EmptyString, s. simpl. rewrite Hres. split; [reflexivity |].
      split; [exact Hno | lia].
    + left. simpl. auto.
  - right. exists (String a pre), t. simpl. rewrite Hres.
    split; [reflexivity |]. split; [exact Hno | lia].
Qed.

(** What [s.substring(s.lastIndexOf(c))] is: all of [s] when [c] does not
    occur, and otherwise the end of [s] from its last [c]. *)
Lemma lastSuffix_cases (c : ascii) (s : string) :
  (occurs c s = false
   /\ JsString.substring (JsString.lastIndexOf c s) s = s)
  \/ (exists pre t,
        s = pre +:+ String c t /\ occurs c t = false
        /\ JsString.substring (JsString.lastIndexOf c s) s = String c t).
Proof.
  unfold JsString.lastIndexOf, JsString.substring.
  destruct (lastIndexOf_from_cases c s 0 (-1))
    as [[Hno ->] | (pre & t & -> & Hno & ->)].
  - left. split; [exact Hno |]. simpl. destruct s; reflexivity.
  - right. exists pre, t. split; [reflexivity |]. split; [exact Hno |].
    rewrite Z.add_0_l, Nat2Z.id. apply drop_app_length.
Qed.

Lemma indexOf_from_none (c : ascii) (s : string) (i : Z) :
  0 <= i -> JsString.indexOf_from c s i = -1 -> occurs c s = false.
Proof.
  revert i. induction s as [| a s IH]; intros i Hi; simpl; [reflexivity |].
  destruct (Ascii.eqb a c); [lia |]. apply IH. lia.
Qed.

Lemma indexOf_from_some (c : ascii) (s : string) (i : Z) :
  0 <= i -> JsString.indexOf_from c s i <> -1 -> occurs c s = true.
Proof.
  revert i. induction s as [| a s IH]; intros i Hi; simpl; [congruence |].
  destruct (Ascii.eqb a c); [reflexivity |]. apply IH. lia.
Qed.

Lemma split0_free (c : ascii) (s : string) : occurs c (JsString.split0 c s) = false.
Proof.
  induction s as [| a s IH]; simpl; [reflexivity |].
  destruct (Ascii.eqb a c) eqn:Hac; simpl; [reflexivity |]. rewrite Hac. exact IH.
Qed.

Lemma split0_keeps_free (c d : ascii) (s : string) :
  occurs d s = false -> occurs d (JsString.split0 c s) = false.
Proof.
  induction s as [| a s IH]; simpl; [reflexivity |].
  intros Hd. apply orb_false_iff in Hd as [Had Hd].
  destruct (Ascii.eqb a c); simpl; [reflexivity |]. rewrite Had. auto.
Qed.

Lemma split0_prefix (c : ascii) (b q : string) :
  occurs c b = false -> JsString.split0 c (b +:+ String c q) = b.
Proof.
  induction b as [| a b IH]; simpl.
  - rewrite Ascii.eqb_refl. reflexivity.
  - intros Hb. apply orb_false_iff in Hb as [Hab Hb].
    rewrite Hab. f_equal. auto.
Qed.

Lemma split0_id (c : ascii) (s : string) :
  occurs c s = false -> JsString.split0 c s = s.
Proof.
  induction s as [| a s IH]; simpl; [reflexivity |].
  intros Hs. apply orb_false_iff in Hs as [Has Hs].
  rewrite Has. f_equal. auto.
Qed.

End Strings.

(** ** Key derivation *)

Section KeyDerivation.
Context `{Platform}.

Lemma hash_explicit (props : Props) (i : string) :
  id props = Some i -> i <> EmptyString -> (_getEntryProps props).1 = i.
Proof.
  intros Hid Hne. unfold _getEntryProps. cbn. rewrite Hid.
  destruct i; [congruence | reflexivity].
Qed.

Lemma hash_derived (props : Props) :
  noIdentity props -> (_getEntryProps props).1 = SHA1 (uriAfterPolicy props).
Proof.
  intros [Hid | Hid]; unfold _getEntryProps, uriAfterPolicy; cbn;
    rewrite Hid; reflexivity.
Qed.

(** C1: the derived cache key is the explicit identity when that is a
    non-empty string, and otherwise the SHA1 of the uri: of the whole uri
    when [ignoreQueryString] is not set, and of what stands before its
    first question mark when it is set (the uri itself when it has none);
    hence two descriptors with the same explicit identity, or with no
    identity and the same uri after that policy, derive the same key. *)
Theorem cache_key_derivation (d1 d2 : Props) :
  (forall i, id d1 = Some i -> i <> EmptyString -> (_getEntryProps d1).1 = i)
  /\ (noIdentity d1 -> (_getEntryProps d1).1 = SHA1 (uriAfterPolicy d1))
  /\ (noIdentity d1 -> ignoreQueryString d1 = false ->
      (_getEntryProps d1).1 = SHA1 (uri (source d1)))
  /\ (noIdentity d1 -> ignoreQueryString d1 = true ->
      forall b q, occurs "?" b = false ->
                  uri (source d1) = b +:+ String "?" q ->
                  (_getEntryProps d1).1 = SHA1 b)
  /\ (noIdentity d1 -> ignoreQueryString d1 = true ->
      occurs "?" (uri (source d1)) = false ->
      (_getEntryProps d1).1 = SHA1 (uri (source d1)))
  /\ (forall i, id d1 = Some i -> id d2 = Some i -> i <> EmptyString ->
      (_getEntryProps d1).1 = (_getEntryProps d2).1)
  /\ (noIdentity d1 -> noIdentity d2 -> uriAfterPolicy d1 = uriAfterPolicy d2 ->
      (_getEntryProps d1).1 = (_getEntryProps d2).1).
Proof.
  split; [| split; [| split; [| split; [| split; [| split]]]]].
  - intros i. apply hash_explicit.
  - apply hash_derived.
  - intros Hid Hign. rewrite (hash_derived d1 Hid). unfold uriAfterPolicy.
    rewrite Hign. reflexivity.
  - intros Hid Hign b q Hb Hu. rewrite (hash_derived d1 Hid). unfold uriAfterPolicy.
    rewrite Hign, Hu, split0_prefix by exact Hb. reflexivity.
  - intros Hid Hign Hu. rewrite (hash_derived d1 Hid). unfold uriAfterPolicy.
    rewrite Hign, split0_id by exact Hu. reflexivity.
  - intros i H1 H2 Hne.
    rewrite (hash_explicit d1 i H1 Hne), (hash_explicit d2 i H2 Hne).
    reflexivity.
  - intros H1 H2 Heq. rewrite !hash_derived by assumption. congruence.
Qed.

End KeyDerivation.

(** The scenarios of the documentation, on the sample platform. *)
Example key_of_logo : (@_getEntryProps Sample.platform Sample.logo) = ("logo", ".png")%string.
Proof. vm_compute. reflexivity. Qed.

Example key_of_png :
  (@_getEntryProps Sample.platform Sample.png)
  = ("sha1:https://example.com/a.png", ".png")%string.
Proof. vm_compute. reflexivity. Qed.

Example extension_default :
  (@_getEntryProps Sample.platform
     (mkProps None true false (mkSource "https://example.com/pic?x=1.5" None None)))
  = ("sha1:https://example.com/pic", ".jpg")%string.
Proof. vm_compute. reflexivity. Qed.

Lemma cache_key_derivation_witness :
  (@_getEntryProps Sample.platform Sample.logo).1 = "logo"%string
  /\ (@_getEntryProps Sample.platform SampleQuery.versioned).1
     = @SHA1 Sample.platform "https://example.com/a.png"
  /\ (@_getEntryProps Sample.platform SampleQuery.versioned).1
     = (@_getEntryProps Sample.platform SampleQuery.other).1
  /\ (@_getEntryProps Sample.platform SampleQuery.exact).1
     = @SHA1 Sample.platform "https://example.com/a.png?v=2".
Proof.
  destruct (@cache_key_derivation Sample.platform Sample.logo Sample.logo)
    as (Hexplicit & _).
  destruct (@cache_key_derivation Sample.platform SampleQuery.versioned
              SampleQuery.other) as (_ & _ & _ & Hcut & _ & _ & Hsame).
  destruct (@cache_key_derivation Sample.platform SampleQuery.exact
              SampleQuery.exact) as (_ & _ & Hwhole & _).
  split; [| split; [| split]].
  - apply Hexplicit; [reflexivity | discriminate].
  - apply (Hcut (or_introl eq_refl) eq_refl "https://example.com/a.png"%string
                "v=2"%string); reflexivity.
  - apply Hsame; [left; reflexivity | left; reflexivity |].
    vm_compute. reflexivity.
  - apply Hwhole; [left; reflexivity | reflexivity].
Defined.
(** ** Cached paths and the namespace *)

Section CachedPath.
Context `{Platform}.

Lemma append_cancel_l (a b c : string) : a +:+ b = a +:+ c -> b = c.
Proof.
  induction a as [| x a IH]; cbn; intros Heq; [assumption |].
  injection Heq as Heq. auto.
Qed.

Lemma getBaseDir_inj (s1 s2 : State) :
  getBaseDir s1 = getBaseDir s2 -> name (store s1) = name (store s2).
Proof.
  unfold getBaseDir. intros Heq.
  apply append_cancel_l in Heq. apply (append_cancel_l "/") in Heq. exact Heq.
Qed.

Lemma getImageOfflinePath_Some (s : State) (props : Props) (p : string) :
  (getImageOfflinePath s props).1 = Some p <->
  exists e, _getEntry s props = Item e /\ basePath e = getBaseDir s /\ p = localPath e.
Proof.
  unfold getImageOfflinePath. split.
  - destruct (_getEntry s props) as [| e | n | | t]; try discriminate.
    destruct (decide (basePath e = getBaseDir s)) as [Hb | Hb]; cbn; [| discriminate].
    intros [= <-]. exists e. auto.
  - intros (e & -> & Hb & ->).
    destruct (decide (basePath e = getBaseDir s)); [reflexivity | contradiction].
Qed.

Lemma restore_inr (s s1 : State) (config : Config) (t : list Effect) :
  restore s config = inr (s1, t) ->
  entries s1 = entries s /\ handlers s1 = handlers s
  /\ cfg_name config = Some (name (store s1))
  /\ t = [GetItem (storageKey s1)]
  /\ entriesProto s1 = entriesProto s.
Proof.
  unfold restore. destruct (cfg_name config) as [n |]; [| discriminate].
  destruct (JsString.truthy n); [| discriminate].
  intros [= <- <-]. cbn. repeat split; reflexivity.
Qed.

(** C2: [getImageOfflinePath] returns a path exactly when the dictionary
    has an entry for the derived key whose [basePath] is the current base
    directory, and the path is that of the entry; an entry written under
    another store name gives no path; and once [restore] has given the
    store another name, a descriptor downloaded under the old name gets no
    path although its entry is still in the dictionary. *)
Theorem cached_path_iff_valid_entry (s : State) (props : Props) :
  (forall p, (getImageOfflinePath s props).1 = Some p <->
     exists e, _getEntry s props = Item e /\ basePath e = getBaseDir s
               /\ p = localPath e)
  /\ (forall s0 e,
        _getEntry s props = Item e ->
        basePath e = getBaseDir s0 ->
        name (store s) <> name (store s0) ->
        (getImageOfflinePath s props).1 = None)
  /\ (forall config s1 t e,
        restore s config = inr (s1, t) ->
        name (store s1) <> name (store s) ->
        _getEntry s props = Item e ->
        basePath e = getBaseDir s ->
        (getImageOfflinePath s1 props).1 = None /\ _getEntry s1 props = Item e).
Proof.
  split; [apply getImageOfflinePath_Some |]. split.
  { intros s0 e Hentry Hbase Hname.
    destruct ((getImageOfflinePath s props).1) as [p |] eqn:Hp; [| reflexivity].
    apply getImageOfflinePath_Some in Hp as (e' & He' & Hb' & _).
    rewrite Hentry in He'. injection He' as <-.
    exfalso. apply Hname. apply getBaseDir_inj. congruence. }
  intros config s1 t e Hrestore Hname Hentry Hbase.
  destruct (restore_inr _ _ _ _ Hrestore) as (Hent & _ & _ & _ & Hproto).
  assert (Hsame : _getEntry s1 props = Item e).
  { unfold _getEntry, entries_get in *. rewrite Hent, Hproto. exact Hentry. }
  split; [| exact Hsame].
  destruct ((getImageOfflinePath s1 props).1) as [p |] eqn:Hp; [| reflexivity].
  apply getImageOfflinePath_Some in Hp as (e' & He' & Hb' & _).
  rewrite Hsame in He'. injection He' as <-.
  exfalso. apply Hname. apply getBaseDir_inj. congruence.
Qed.

End CachedPath.

Example cached_path_hit :
  (@getImageOfflinePath Sample.platform SampleCached.cached Sample.png).1
  = Some "/cache/RN_Default_ImageStore/sha1:https://example.com/a.png.png"%string.
Proof. vm_compute. reflexivity. Qed.

Lemma cached_path_iff_valid_entry_witness :
  (@getImageOfflinePath Sample.platform SampleCached.moved Sample.png).1 = None
  /\ @_getEntry Sample.platform SampleCached.moved Sample.png
     = Item SampleCached.entry.
Proof.
  destruct (@cached_path_iff_valid_entry Sample.platform
              SampleCached.cached Sample.png) as (_ & _ & Hmoved).
  apply (Hmoved SampleCached.renamed SampleCached.moved
           [GetItem "@Gallery:uris"%string] SampleCached.entry).
  - reflexivity.
  - cbn. discriminate.
  - vm_compute. reflexivity.
  - reflexivity.
Defined.

(** ** Notification *)

Section Notification.
Context `{Platform}.

Lemma calls_app (t1 t2 : list Effect) : calls (t1 ++ t2) = calls t1 ++ calls t2.
Proof. apply omap_app. Qed.

Lemma calls_log (s : State) (args : list string) : calls (log s args) = [].
Proof. unfold log. destruct (debugMode (store s)); reflexivity. Qed.

Lemma notify_each_all (s : State) (u p : string) (hs : list Handler) :
  Forall (fun h => throws h = false) hs ->
  calls (notify_each s u p hs).1 = map (fun h => (hid h, u, p)) hs
  /\ (notify_each s u p hs).2 = true.
Proof.
  induction 1 as [| h hs Hh _ IH]; [split; reflexivity |].
  cbn [notify_each]. rewrite Hh.
  destruct (notify_each s u p hs) as [t fine].
  destruct IH as [IH1 IH2]. cbn [fst snd] in *. split; [| exact IH2].
  rewrite !calls_app, calls_log, IH1. reflexivity.
Qed.

Lemma notify_each_stops (s : State) (u p : string) (pre post : list Handler) (h : Handler) :
  Forall (fun h => throws h = false) pre ->
  throws h = true ->
  calls (notify_each s u p (pre ++ h :: post)).1
  = map (fun h => (hid h, u, p)) (pre ++ [h])
  /\ (notify_each s u p (pre ++ h :: post)).2 = false.
Proof.
  intros Hpre Hh. induction Hpre as [| x pre Hx _ IH].
  - cbn [app notify_each]. rewrite Hh. cbn [fst snd].
    rewrite calls_app, calls_log. split; reflexivity.
  - rewrite <- !app_comm_cons. cbn [notify_each]. rewrite Hx.
    destruct (notify_each s u p (pre ++ h :: post)) as [t fine].
    destruct IH as [IH1 IH2]. cbn [fst snd] in *. split; [| exact IH2].
    rewrite !calls_app, calls_log, IH1. reflexivity.
Qed.

Lemma inherited_plain {A : Type} (k : string) :
  plainName k -> @inherited _ A k = Undefined.
Proof.
  intros [Hne Hnone]. unfold inherited. rewrite Hnone.
  destruct (decide (k = "__proto__"%string)); [contradiction | reflexivity].
Qed.

Lemma handlers_get_own (s : State) (u : string) (hs : list Handler) :
  handlers s !! u = Some hs -> handlers_get s u = Item hs.
Proof. intros Hu. unfold handlers_get. rewrite Hu. reflexivity. Qed.

Lemma handlers_get_fresh (s : State) (u : string) :
  handlers s !! u = None -> plainName u -> handlers_get s u = Undefined.
Proof.
  intros Hu Hplain. unfold handlers_get. rewrite Hu. apply inherited_plain, Hplain.
Qed.

(** A value read from [handlers] is an own array or comes from the
    prototype. *)
Lemma handlers_get_cases (s : State) (u : string) :
  (exists hs, handlers s !! u = Some hs /\ handlers_get s u = Item hs)
  \/ (handlers s !! u = None
      /\ (handlers_get s u = Undefined \/ handlers_get s u = Prototype
          \/ exists n, handlers_get s u = Method n)).
Proof.
  unfold handlers_get, inherited. destruct (handlers s !! u) as [hs |]; [eauto |].
  right. split; [reflexivity |].
  destruct (decide (u = "__proto__"%string)); [auto |].
  destruct (Object_prototype u); eauto.
Qed.

Lemma subscribe_register_own
    (s : State) (h : Handler) (props : Props) (hs : list Handler) :
  handlers s !! uri (source props) = Some hs ->
  subscribe_register s h props
  = Some (setHandlers s (<[uri (source props) := hs ++ [h]]> (handlers s))).
Proof.
  intros Hu. unfold subscribe_register.
  rewrite (handlers_get_own s _ hs Hu). reflexivity.
Qed.

Lemma subscribe_register_fresh (s : State) (h : Handler) (props : Props) :
  handlers s !! uri (source props) = None ->
  plainName (uri (source props)) ->
  subscribe_register s h props
  = Some (setHandlers s (<[uri (source props) := [h]]> (handlers s))).
Proof.
  intros Hu Hplain. unfold subscribe_register.
  rewrite (handlers_get_fresh s _ Hu Hplain). reflexivity.
Qed.

(** What a registration that does not throw leaves. *)
Lemma subscribe_register_Some
    (s s1 : State) (h : Handler) (props : Props) :
  subscribe_register s h props = Some s1 ->
  s1 = setHandlers s (<[uri (source props) :=
                         default [] (handlers s !! uri (source props)) ++ [h]]>
                        (handlers s)).
Proof.
  unfold subscribe_register.
  destruct (handlers_get_cases s (uri (source props)))
    as [(hs & Hown & ->) | (Hnone & [-> | [-> | (n & ->)]])];
    rewrite ?Hown, ?Hnone; cbn; congruence.
Qed.

Lemma register_lookup (s : State) (h : Handler) (props : Props) :
  is_Some (subscribe_register s h props) ->
  handlers (register s h props) !! uri (source props)
  = Some (default [] (handlers s !! uri (source props)) ++ [h]).
Proof.
  intros [s1 Hs1]. unfold register. rewrite Hs1. cbn.
  rewrite (subscribe_register_Some _ _ _ _ Hs1). cbn. apply lookup_insert_eq.
Qed.

(** C7, as the code has it: a new handler is registered behind the handlers
    already subscribed for its uri; [_notify] calls the handlers of the uri
    in that order with the uri and the local path of the entry; when none of
    them throws all are called, and when one throws the loop ends with it:
    the handlers registered before it have been called and those registered
    after it are not called. *)
Theorem notify_in_order_until_throw
    (s : State) (u : string) (entry : Entry) (hs : list Handler) :
  handlers s !! u = Some hs ->
  (forall h props, u = uri (source props) ->
     handlers (register s h props) !! u = Some (hs ++ [h]))
  /\ (Forall (fun h => throws h = false) hs ->
      calls (_notify s u entry).1 = map (callOf u entry) hs
      /\ (_notify s u entry).2 = true)
  /\ (forall pre h post,
        hs = pre ++ h :: post ->
        Forall (fun h => throws h = false) pre ->
        throws h = true ->
        calls (_notify s u entry).1 = map (callOf u entry) (pre ++ [h])
        /\ (_notify s u entry).2 = false).
Proof.
  intros Hhs. split; [| split].
  - intros h props ->.
    rewrite register_lookup, Hhs; [reflexivity |].
    rewrite (subscribe_register_own s h props hs Hhs). eauto.
  - intros Hall. unfold _notify. rewrite (handlers_get_own s u hs Hhs).
    apply notify_each_all, Hall.
  - intros pre h post -> Hpre Hh. unfold _notify.
    rewrite (handlers_get_own s u _ Hhs).
    apply notify_each_stops; assumption.
Qed.

End Notification.

(** C7 as it was claimed fails: with two handlers of which the first
    throws, the second is never called. *)
Lemma notify_all_handlers_counterexample :
  handlers SampleNotify.subscribed !! SampleNotify.address
  = Some [SampleNotify.first; SampleNotify.second]
  /\ calls (@_notify Sample.platform SampleNotify.subscribed
              SampleNotify.address SampleNotify.entry).1
     <> map (callOf SampleNotify.address SampleNotify.entry)
            [SampleNotify.first; SampleNotify.second].
Proof. split; [reflexivity |]. vm_compute. discriminate. Qed.

Lemma notify_in_order_until_throw_witness :
  calls (@_notify Sample.platform SampleNotify.subscribed
           SampleNotify.address SampleNotify.entry).1
  = [(1%nat, SampleNotify.address,
      "/cache/RN_Default_ImageStore/sha1:https://example.com/a.png.png"%string)]
  /\ (@_notify Sample.platform SampleNotify.subscribed
        SampleNotify.address SampleNotify.entry).2 = false.
Proof.
  destruct (@notify_in_order_until_throw Sample.platform
              SampleNotify.subscribed SampleNotify.address SampleNotify.entry
              [SampleNotify.first; SampleNotify.second])
    as (_ & _ & Hstop); [reflexivity |].
  apply (Hstop [] SampleNotify.first [SampleNotify.second]).
  - reflexivity.
  - constructor.
  - reflexivity.
Defined.

(** ** Requests and downloads on the event loop *)

Section EventLoop.
Context `{Platform}.

Lemma fetched_app (t1 t2 : list Effect) :
  fetched (t1 ++ t2) = fetched t1 ++ fetched t2.
Proof. apply omap_app. Qed.

Lemma fetched_log (s : State) (args : list string) : fetched (log s args) = [].
Proof. unfold log. destruct (debugMode (store s)); reflexivity. Qed.

Lemma entries_get_frame (s s1 : State) (k : string) :
  sameDictionary s s1 -> entries_get s1 k = entries_get s k.
Proof. intros (He & _ & Hp). unfold entries_get. rewrite He, Hp. reflexivity. Qed.

Lemma getBaseDir_frame (s s1 : State) :
  sameDictionary s s1 -> getBaseDir s1 = getBaseDir s.
Proof. intros (_ & Hs & _). unfold getBaseDir. rewrite Hs. reflexivity. Qed.

Lemma validlyCached_frame (s s1 : State) (props : Props) :
  sameDictionary s s1 -> validlyCached s1 props <-> validlyCached s props.
Proof.
  intros Hsame. unfold validlyCached, _getEntry.
  rewrite (entries_get_frame s s1 _ Hsame), (getBaseDir_frame s s1 Hsame).
  reflexivity.
Qed.

Lemma getImage_miss (s : State) (props : Props) :
  ~ validlyCached s props ->
  fetched (_getImage s props).1 = [(target s props, uri (source props))]
  /\ (_getImage s props).2 = true.
Proof.
  intros Hmiss. unfold _getImage.
  assert (Hlogged : fetched (log s ["Image not exist offline"%string; uri (source props)]
                             ++ _downloadImage s props)
                    = [(target s props, uri (source props))])
    by (rewrite fetched_app, fetched_log; reflexivity).
  destruct (_getEntry s props) as [| e | n | | t] eqn:He; cbn [truthyValue].
  - split; [exact Hlogged | reflexivity].
  - destruct (decide (basePath e = getBaseDir s)) as [Hb | Hb].
    + exfalso. apply Hmiss. exists e. auto.
    + split; reflexivity.
  - split; reflexivity.
  - split; reflexivity.
  - destruct (JsString.truthy t); split; (exact Hlogged || reflexivity).
Qed.

Lemma subscribe_register_frame (s s1 : State) (h : Handler) (p : Props) :
  subscribe_register s h p = Some s1 -> sameDictionary s s1.
Proof.
  intros Hs1. rewrite (subscribe_register_Some _ _ _ _ Hs1).
  repeat split; reflexivity.
Qed.

Lemma register_frame (s : State) (h : Handler) (p : Props) :
  sameDictionary s (register s h p).
Proof.
  unfold register. destruct (subscribe_register s h p) as [s1 |] eqn:Hs1.
  - exact (subscribe_register_frame _ _ _ _ Hs1).
  - repeat split; reflexivity.
Qed.

(** A [subscribe] whose registration throws does nothing else. *)
Lemma step_rejected (w : World) (i : Input) :
  accepted (state w) i = false ->
  step w i = (w, [Uncaught "TypeError: push is not a function"]).
Proof.
  destruct i as [h p | p | src | j ok now]; cbn [accepted step]; try discriminate.
  destruct (subscribe_register (state w) h p); [discriminate | reflexivity].
Qed.

(** A request that is not rejected runs [_getImage] on the store it has
    left, whose dictionary of entries is the one it found. *)
Lemma step_request_state (w : World) (i : Input) (props : Props) :
  requestProps i = Some props ->
  accepted (state w) i = true ->
  sameDictionary (state w) (state (step w i).1)
  /\ (step w i).2 = (_getImage (state (step w i).1) props).1
  /\ tasks (step w i).1
     = tasks w ++ started (_getImage (state (step w i).1) props).2 props
  /\ state (step w i).1
     = match i with
       | ISubscribe h _ => register (state w) h props
       | _ => state w
       end.
Proof.
  intros Hreq Hacc. destruct i as [h p | p | |]; try discriminate;
    injection Hreq as ->; cbn [step accepted] in *.
  - unfold register.
    destruct (subscribe_register (state w) h props) as [s1 |] eqn:Hs1;
      [| discriminate].
    pose proof (subscribe_register_frame _ _ _ _ Hs1) as Hsame.
    destruct (_getImage s1 props) as [t b] eqn:Hg.
    cbn [fst snd state tasks default]. rewrite Hg. auto.
  - destruct (_getImage (state w) props) as [t b] eqn:Hg.
    cbn [fst snd state tasks]. rewrite Hg.
    repeat split; reflexivity.
Qed.

Lemma target_frame (s s1 : State) (props : Props) :
  sameDictionary s s1 -> target s1 props = target s props.
Proof. intros Hsame. unfold target. rewrite (getBaseDir_frame s s1 Hsame). reflexivity. Qed.

Lemma step_request_miss (w : World) (i : Input) (props : Props) :
  requestProps i = Some props ->
  accepted (state w) i = true ->
  ~ validlyCached (state w) props ->
  fetched (step w i).2 = [(target (state w) props, uri (source props))]
  /\ tasks (step w i).1 = tasks w ++ [TFetch props]
  /\ sameDictionary (state w) (state (step w i).1).
Proof.
  intros Hreq Hacc Hmiss.
  destruct (step_request_state w i props Hreq Hacc) as (Hsame & -> & -> & _).
  assert (Hmiss' : ~ validlyCached (state (step w i).1) props)
    by (rewrite (validlyCached_frame _ _ props Hsame); exact Hmiss).
  destruct (getImage_miss _ _ Hmiss') as [-> ->].
  rewrite (target_frame _ _ props Hsame). auto.
Qed.

(** C8, as the code has it: the store keeps no record of the downloads in
    flight, so every request whose key is not validly cached starts a
    download of its own.  Two requests for the same key made one after the
    other, before any download has settled, start two downloads, each to
    the file of its own descriptor, and both remain pending.  This is said
    of requests that are not rejected: a [subscribe] whose uri names
    something the dictionary of handlers inherits from [Object.prototype]
    throws at its registration, before any download. *)
Theorem concurrent_requests_fetch_twice
    (w : World) (i1 i2 : Input) (p1 p2 : Props) :
  requestProps i1 = Some p1 ->
  requestProps i2 = Some p2 ->
  accepted (state w) i1 = true ->
  accepted (state (step w i1).1) i2 = true ->
  (_getEntryProps p1).1 = (_getEntryProps p2).1 ->
  ~ validlyCached (state w) p1 ->
  fetched (run w [i1; i2]).2
  = [(target (state w) p1, uri (source p1)); (target (state w) p2, uri (source p2))]
  /\ tasks (run w [i1; i2]).1 = tasks w ++ [TFetch p1; TFetch p2].
Proof.
  intros Hr1 Hr2 Ha1 Ha2 Hkey Hmiss.
  destruct (step_request_miss w i1 p1 Hr1 Ha1 Hmiss) as (Hf1 & Ht1 & Hsame).
  cbn [run]. destruct (step w i1) as [w1 t1]. cbn [fst snd] in *.
  assert (Hmiss2 : ~ validlyCached (state w1) p2).
  { rewrite (validlyCached_frame _ _ p2 Hsame).
    intros (e & Hent & Hbase). apply Hmiss. exists e.
    unfold _getEntry in *. rewrite Hkey. auto. }
  destruct (step_request_miss w1 i2 p2 Hr2 Ha2 Hmiss2) as (Hf2 & Ht2 & _).
  destruct (step w1 i2) as [w2 t2]. cbn [fst snd] in *.
  rewrite app_nil_r, fetched_app, Hf1, Hf2, Ht2, Ht1, <- app_assoc.
  rewrite (target_frame _ _ p2 Hsame). auto.
Qed.

End EventLoop.

(** C8 as it was claimed fails: two subscriptions to the same uncached
    image, made before the first download settles, start two downloads to
    the same file. *)
Lemma single_flight_counterexample :
  fetched (@run Sample.platform SampleLoop.idle SampleLoop.twice).2
  = [("/cache/RN_Default_ImageStore/sha1:https://example.com/a.png.png"%string,
      "https://example.com/a.png"%string);
     ("/cache/RN_Default_ImageStore/sha1:https://example.com/a.png.png"%string,
      "https://example.com/a.png"%string)]
  /\ ~ (length (fetched (@run Sample.platform SampleLoop.idle SampleLoop.twice).2) <= 1)%nat.
Proof. split; [vm_compute; reflexivity |]. vm_compute. lia. Qed.

Lemma concurrent_requests_fetch_twice_witness :
  length (fetched (@run Sample.platform SampleLoop.idle SampleLoop.twice).2) = 2%nat
  /\ tasks (@run Sample.platform SampleLoop.idle SampleLoop.twice).1
     = [TFetch Sample.png; TFetch Sample.png].
Proof.
  destruct (@concurrent_requests_fetch_twice Sample.platform SampleLoop.idle
              (ISubscribe SampleNotify.second Sample.png)
              (ISubscribe (mkHandler 3 false) Sample.png)
              Sample.png Sample.png) as [Hf Ht].
  - reflexivity.
  - reflexivity.
  - reflexivity.
  - vm_compute. reflexivity.
  - reflexivity.
  - intros (e & He & _). vm_compute in He. discriminate.
  - split; [| exact Ht].
    change SampleLoop.twice with
      [ISubscribe SampleNotify.second Sample.png; ISubscribe (mkHandler 3 false) Sample.png].
    rewrite Hf. reflexivity.
Defined.

(** ** What a settled download does to the dictionary *)

Section Download.
Context `{Platform}.

Lemma entries_get_own (s : State) (k : string) (e : Entry) :
  entries s !! k = Some e -> entries_get s k = Item e.
Proof. intros Hk. unfold entries_get. rewrite Hk. reflexivity. Qed.

(** For a name the prototype knows nothing under, reading the dictionary
    is reading its own properties. *)
Lemma entries_get_plain (s : State) (k : string) :
  plainKey k ->
  entries_get s k = match entries s !! k with
                    | Some e => Item e
                    | None => Undefined
                    end.
Proof.
  intros (Hplain & Hb & Hl & Hc). pose proof Hplain as [Hproto _].
  unfold entries_get. destruct (entries s !! k); [reflexivity |].
  destruct (entriesProto s) as [p |]; [| apply inherited_plain, Hplain].
  repeat (destruct (decide _); [contradiction |]).
  apply inherited_plain, Hplain.
Qed.

Lemma entries_set_get (s : State) (k : string) (e : Entry) :
  entries_get (entries_set s k e) k = Item e.
Proof.
  unfold entries_set. destruct (entries s !! k) as [e0 |] eqn:Hk.
  - apply entries_get_own. apply lookup_insert_eq.
  - destruct (decide (k = "__proto__"%string)) as [-> | Hne].
    + unfold entries_get. cbn. rewrite Hk. reflexivity.
    + apply entries_get_own. apply lookup_insert_eq.
Qed.

Lemma entries_set_other (s : State) (k k' : string) (e : Entry) :
  k' <> k -> entries (entries_set s k e) !! k' = entries s !! k'.
Proof.
  intros Hne. unfold entries_set.
  destruct (entries s !! k);
    [| destruct (decide (k = "__proto__"%string)); [reflexivity |]];
    cbn; apply lookup_insert_ne; congruence.
Qed.

Lemma entries_set_own (s : State) (k : string) (e : Entry) :
  is_Some (entries s !! k) \/ k <> "__proto__"%string ->
  entries (entries_set s k e) = <[k := e]> (entries s)
  /\ entriesProto (entries_set s k e) = entriesProto s.
Proof.
  intros Hk. unfold entries_set.
  destruct (entries s !! k) as [e0 |]; [split; reflexivity |].
  destruct Hk as [[? Hk] | Hk]; [discriminate |].
  destruct (decide (k = "__proto__"%string)); [contradiction | split; reflexivity].
Qed.

Lemma entries_set_frame (s : State) (k : string) (e : Entry) :
  store (entries_set s k e) = store s /\ handlers (entries_set s k e) = handlers s.
Proof.
  unfold entries_set.
  destruct (entries s !! k); [| destruct (decide _)]; split; reflexivity.
Qed.

(** The entry [_addEntry] makes. *)
Lemma addEntry_value (s : State) (hash localUri now : string) :
  (_addEntry s hash localUri now).2
  = mkEntry (match entries_get s hash with
             | Item e => createdOn e
             | v => if truthyValue v then None else Some now
             end) (getBaseDir s) localUri.
Proof.
  unfold _addEntry. cbn [snd].
  destruct (entries_get s hash) as [| e | n | | t]; cbn [truthyValue];
    try reflexivity.
  destruct (JsString.truthy t); reflexivity.
Qed.

Lemma addEntry_lookup (s : State) (hash localUri now : string) :
  entries_get (_addEntry s hash localUri now).1 hash
  = Item (_addEntry s hash localUri now).2
  /\ (forall k, k <> hash ->
        entries (_addEntry s hash localUri now).1 !! k = entries s !! k)
  /\ store (_addEntry s hash localUri now).1 = store s
  /\ handlers (_addEntry s hash localUri now).1 = handlers s.
Proof.
  unfold _addEntry. cbn [fst snd].
  split; [apply entries_set_get |].
  split; [intros k Hk; apply entries_set_other, Hk |].
  apply entries_set_frame.
Qed.

Lemma addEntry_own (s : State) (hash localUri now : string) :
  hash <> "__proto__"%string \/ is_Some (entries s !! hash) ->
  entries (_addEntry s hash localUri now).1 !! hash
  = Some (_addEntry s hash localUri now).2.
Proof.
  intros Hk. unfold _addEntry. cbn [fst snd].
  match goal with
  | |- entries (entries_set _ _ ?e) !! _ = _ =>
      destruct (entries_set_own s hash e) as [-> _]; [tauto |]
  end.
  apply lookup_insert_eq.
Qed.

Lemma addEntry_keeps (s : State) (hash localUri now k : string) (e : Entry) :
  entries s !! k = Some e ->
  exists e', entries (_addEntry s hash localUri now).1 !! k = Some e'
             /\ createdOn e' = createdOn e.
Proof.
  intros Hk. destruct (decide (k = hash)) as [-> | Hne].
  - eexists. split; [apply addEntry_own; right; eauto |].
    rewrite addEntry_value, (entries_get_own s hash e Hk). reflexivity.
  - exists e. destruct (addEntry_lookup s hash localUri now) as (_ & Hother & _).
    rewrite (Hother k Hne). auto.
Qed.

Lemma settle_fetch_failed (w : World) (i : nat) (props : Props) (now : string) :
  tasks w !! i = Some (TFetch props) ->
  step w (ISettle i false now)
  = (mkWorld (state w) (delete i (tasks w)), _downloadImage_catch (state w) props).
Proof. intros Ht. cbn [step]. unfold settle. rewrite Ht. reflexivity. Qed.

Lemma settle_fetch_done (w : World) (i : nat) (props : Props) (now : string) :
  tasks w !! i = Some (TFetch props) ->
  let added := _addEntry (state w) (_getEntryProps props).1 (filename props) now in
  step w (ISettle i true now)
  = (mkWorld added.1
       (delete i (tasks w) ++ [TSetItem (uri (source props)) added.2]),
     [SetItem (storageKey added.1) (JSON_stringify (entries added.1))]).
Proof.
  intros Ht. cbn [step]. unfold settle, _downloadImage_then. rewrite Ht.
  destruct (_addEntry (state w) (_getEntryProps props).1 (filename props) now).
  reflexivity.
Qed.

Lemma settle_write (w : World) (i : nat) (u : string) (e : Entry) (ok : bool) (now : string) :
  tasks w !! i = Some (TSetItem u e) ->
  step w (ISettle i ok now)
  = (mkWorld (state w) (delete i (tasks w)),
     _updateOfflineStore_resume (state w) u e ok).
Proof. intros Ht. cbn [step]. unfold settle. rewrite Ht. reflexivity. Qed.

Lemma writes_app (t1 t2 : list Effect) : writes (t1 ++ t2) = writes t1 ++ writes t2.
Proof. apply omap_app. Qed.

Lemma writes_log (s : State) (args : list string) : writes (log s args) = [].
Proof. unfold log. destruct (debugMode (store s)); reflexivity. Qed.

Lemma offStorage_facts (t : list Effect) :
  Forall offStorage t -> writes t = [] /\ reads t = [].
Proof.
  induction 1 as [| e t He _ [IHw IHr]]; [split; reflexivity |].
  destruct e; try contradiction; cbn; split; assumption.
Qed.

Lemma offStorage_log (s : State) (args : list string) : Forall offStorage (log s args).
Proof. unfold log. destruct (debugMode (store s)); repeat constructor. Qed.

Lemma offStorage_notify_each (s : State) (u p : string) (hs : list Handler) :
  Forall offStorage (notify_each s u p hs).1.
Proof.
  induction hs as [| h hs IH]; [constructor |].
  cbn [notify_each]. destruct (throws h).
  - cbn [fst]. rewrite Forall_app. split; [apply offStorage_log |].
    repeat constructor.
  - destruct (notify_each s u p hs) as [t fine]. cbn [fst] in *.
    rewrite !Forall_app. repeat split; [apply offStorage_log | | exact IH].
    repeat constructor.
Qed.

Lemma offStorage_notify (s : State) (u : string) (e : Entry) :
  Forall offStorage (_notify s u e).1.
Proof.
  unfold _notify. destruct (handlers_get s u); try constructor.
  apply offStorage_notify_each.
Qed.

Lemma offStorage_downloadImage (s : State) (props : Props) :
  Forall offStorage (_downloadImage s props).
Proof. repeat constructor. Qed.

Lemma offStorage_getImage (s : State) (props : Props) :
  Forall offStorage (_getImage s props).1.
Proof.
  assert (Hlogged : Forall offStorage
                      (log s ["Image not exist offline"%string; uri (source props)]
                         ++ _downloadImage s props)).
  { rewrite Forall_app. split; [apply offStorage_log | apply offStorage_downloadImage]. }
  unfold _getImage.
  destruct (_getEntry s props) as [| e | n | | t]; cbn [truthyValue fst];
    try assumption; try apply offStorage_downloadImage.
  - destruct (decide (basePath e = getBaseDir s)).
    + pose proof (offStorage_notify s (uri (source props)) e) as Hn.
      destruct (_notify s (uri (source props)) e) as [t fine]. cbn [fst] in Hn.
      destruct fine; [destruct (reloadImage props) |]; cbn [fst];
        rewrite ?Forall_app; repeat split;
        auto using offStorage_log, offStorage_downloadImage.
      repeat constructor.
    + apply offStorage_downloadImage.
  - destruct (JsString.truthy t); cbn [fst];
      [apply offStorage_downloadImage | exact Hlogged].
Qed.

(** A request, rejected or not, leaves the dictionary of entries alone and
    writes nothing. *)
Lemma step_request_quiet (w : World) (i : Input) (props : Props) :
  requestProps i = Some props ->
  sameDictionary (state w) (state (step w i).1)
  /\ writes (step w i).2 = [] /\ reads (step w i).2 = [].
Proof.
  intros Hreq. destruct (accepted (state w) i) eqn:Hacc.
  - destruct (step_request_state w i props Hreq Hacc) as (Hsame & -> & _).
    split; [exact Hsame |]. apply offStorage_facts, offStorage_getImage.
  - rewrite (step_rejected w i Hacc). repeat split; reflexivity.
Qed.

(** C4: a download that fails leaves no trace.  The request that starts it
    leaves the dictionary of entries as it is and writes nothing, and when
    its fetch fails the step that settles it leaves the whole store as it
    is, calls no handler and writes nothing: after the attempt the
    dictionary holds exactly what it held before the request.  A download
    started for a key that is not validly cached has called no handler at
    all. *)
Theorem failed_download_is_silent
    (w : World) (i : Input) (props : Props) (now : string) :
  requestProps i = Some props ->
  let r1 := step w i in
  (forall j, tasks r1.1 !! j = Some (TFetch props) ->
     let r2 := step r1.1 (ISettle j false now) in
     entries (state r2.1) = entries (state w)
     /\ entriesProto (state r2.1) = entriesProto (state w)
     /\ state r2.1 = state r1.1
     /\ calls r2.2 = []
     /\ writes (r1.2 ++ r2.2) = []
     /\ tasks r2.1 = delete j (tasks r1.1))
  /\ (accepted (state w) i = true -> ~ validlyCached (state w) props ->
      calls r1.2 = [] /\ tasks r1.1 = tasks w ++ [TFetch props])
  /\ (forall w' j, tasks w' !! j = Some (TFetch props) ->
        state (step w' (ISettle j false now)).1 = state w'
        /\ calls (step w' (ISettle j false now)).2 = []
        /\ writes (step w' (ISettle j false now)).2 = []).
Proof.
  intros Hreq r1. subst r1.
  assert (Hsettle : forall w' j, tasks w' !! j = Some (TFetch props) ->
            state (step w' (ISettle j false now)).1 = state w'
            /\ calls (step w' (ISettle j false now)).2 = []
            /\ writes (step w' (ISettle j false now)).2 = []
            /\ tasks (step w' (ISettle j false now)).1 = delete j (tasks w')).
  { intros w' j Hj. rewrite (settle_fetch_failed w' j props now Hj).
    cbn [fst snd state tasks]. unfold _downloadImage_catch.
    rewrite calls_log, writes_log. auto. }
  destruct (step_request_quiet w i props Hreq) as ((He & _ & Hp) & Hw & _).
  split; [| split].
  - intros j Hj r2. subst r2.
    destruct (Hsettle _ j Hj) as (Hs & Hc & Hw2 & Ht).
    rewrite writes_app, Hw, Hw2, Hs. repeat split; auto.
  - intros Hacc Hmiss.
    destruct (step_request_miss w i props Hreq Hacc Hmiss) as (_ & Ht & _).
    split; [| exact Ht].
    destruct (step_request_state w i props Hreq Hacc) as (Hsame & -> & _).
    assert (Hmiss' : ~ validlyCached (state (step w i).1) props)
      by (rewrite (validlyCached_frame _ _ props Hsame); exact Hmiss).
    clear - Hmiss'. unfold _getImage.
    destruct (_getEntry (state (step w i).1) props) as [| e | n | | t] eqn:He;
      cbn [truthyValue fst]; rewrite ?calls_app, ?calls_log; try reflexivity.
    + destruct (decide (basePath e = getBaseDir (state (step w i).1)));
        [| reflexivity].
      exfalso. apply Hmiss'. exists e. auto.
    + destruct (JsString.truthy t); cbn [fst];
        rewrite ?calls_app, ?calls_log; reflexivity.
  - intros w' j Hj. destruct (Hsettle w' j Hj) as (Hs & Hc & Hw2 & _). auto.
Qed.

Lemma step_keeps_createdOn (w : World) (i : Input) (k : string) (e : Entry) :
  entries (state w) !! k = Some e ->
  exists e', entries (state (step w i).1) !! k = Some e'
             /\ createdOn e' = createdOn e.
Proof.
  intros Hk. destruct i as [h p | p | src | i ok now].
  - destruct (step_request_quiet w (ISubscribe h p) p eq_refl) as ((-> & _) & _).
    eauto.
  - destruct (step_request_quiet w (IPrefetch p) p eq_refl) as ((-> & _) & _).
    eauto.
  - cbn [step fst state unsubscribe setHandlers entries]. eauto.
  - destruct (tasks w !! i) as [[props | u entry] |] eqn:Hi; [destruct ok | |].
    + rewrite (settle_fetch_done w i props now Hi). cbn [fst state].
      apply addEntry_keeps, Hk.
    + rewrite (settle_fetch_failed w i props now Hi). eauto.
    + rewrite (settle_write w i u entry ok now Hi). eauto.
    + cbn [step]. unfold settle. rewrite Hi. eauto.
Qed.

Lemma run_keeps_createdOn (inputs : list Input) (w : World) (k : string) (e : Entry) :
  entries (state w) !! k = Some e ->
  exists e', entries (state (run w inputs).1) !! k = Some e'
             /\ createdOn e' = createdOn e.
Proof.
  revert w e. induction inputs as [| i rest IH]; intros w e Hk; [cbn; eauto |].
  cbn [run].
  destruct (step_keeps_createdOn w i k e Hk) as (e1 & Hk1 & Hc1).
  destruct (step w i) as [w1 t1]. cbn [fst] in Hk1.
  destruct (IH w1 e1 Hk1) as (e2 & Hk2 & Hc2).
  destruct (run w1 rest) as [w2 t2]. cbn [fst] in *.
  exists e2. split; [exact Hk2 | congruence].
Qed.

Lemma calls_resume_failed (s : State) (u : string) (e : Entry) :
  calls (_updateOfflineStore_resume s u e false) = [].
Proof. unfold _updateOfflineStore_resume. apply calls_log. Qed.

(** C10: when a download has succeeded and the write of the dictionary to
    AsyncStorage then fails, no handler is called for that download, and
    the entry the download recorded stays in the dictionary: the store
    still finds it under the key, as an own property unless the key is
    [__proto__].  Whenever the failed write settles, it calls no handler
    and leaves the store as it is. *)
Theorem failed_write_skips_notification
    (w : World) (i : nat) (props : Props) (now now' : string) :
  tasks w !! i = Some (TFetch props) ->
  let k := (_getEntryProps props).1 in
  let r1 := step w (ISettle i true now) in
  let j := length (delete i (tasks w)) in
  let r2 := step r1.1 (ISettle j false now') in
  (exists e,
     tasks r1.1 !! j = Some (TSetItem (uri (source props)) e)
     /\ _getEntry (state r1.1) props = Item e
     /\ calls (r1.2 ++ r2.2) = []
     /\ state r2.1 = state r1.1
     /\ _getEntry (state r2.1) props = Item e
     /\ (k <> "__proto__"%string -> entries (state r2.1) !! k = Some e))
  /\ (forall w' j' u e,
        tasks w' !! j' = Some (TSetItem u e) ->
        calls (step w' (ISettle j' false now')).2 = []
        /\ state (step w' (ISettle j' false now')).1 = state w').
Proof.
  intros Ht k r1 j r2. split; cycle 1.
  { intros w' j' u e Hw'. rewrite (settle_write w' j' u e false now' Hw').
    cbn [fst snd state]. split; [apply calls_resume_failed | reflexivity]. }
  subst r2 r1.
  rewrite (settle_fetch_done w i props now Ht). cbn [fst snd].
  pose proof (addEntry_lookup (state w) k (filename props) now) as (Hnew & _).
  assert (Hown : k <> "__proto__"%string ->
                 entries (_addEntry (state w) k (filename props) now).1 !! k
                 = Some (_addEntry (state w) k (filename props) now).2)
    by (intros Hne; apply addEntry_own; left; exact Hne).
  fold k in Hnew |- *.
  set (added := _addEntry (state w) k (filename props) now) in *.
  assert (Hj : (delete i (tasks w) ++ [TSetItem (uri (source props)) added.2]) !! j
               = Some (TSetItem (uri (source props)) added.2)).
  { subst j. rewrite lookup_app_r by lia. rewrite Nat.sub_diag. reflexivity. }
  exists added.2.
  rewrite (settle_write
             (mkWorld added.1
                (delete i (tasks w) ++ [TSetItem (uri (source props)) added.2]))
             j _ _ false now' Hj).
  cbn [fst snd state tasks].
  rewrite calls_app, calls_resume_failed.
  repeat split; auto.
Qed.

End Download.

Lemma failed_download_is_silent_witness :
  handlers (state (@step Sample.platform SampleLoop.idle
                     (ISubscribe SampleNotify.second Sample.png)).1)
    !! SampleNotify.address = Some [SampleNotify.second]
  /\ entries (state (@step Sample.platform
                       (@step Sample.platform SampleLoop.idle
                          (ISubscribe SampleNotify.second Sample.png)).1
                       (ISettle 0 false "5000")).1) = ∅
  /\ calls (@step Sample.platform
              (@step Sample.platform SampleLoop.idle
                 (ISubscribe SampleNotify.second Sample.png)).1
              (ISettle 0 false "5000")).2 = []
  /\ calls (@step Sample.platform SampleLoop.idle
              (ISubscribe SampleNotify.second Sample.png)).2 = [].
Proof.
  destruct (@failed_download_is_silent Sample.platform SampleLoop.idle
              (ISubscribe SampleNotify.second Sample.png) Sample.png "5000")
    as (Hfailed & Hstart & _); [reflexivity |].
  destruct (Hfailed 0%nat) as (Hentries & _ & _ & Hcalls & _); [reflexivity |].
  destruct Hstart as [Hquiet _];
    [reflexivity | intros (e & He & _); vm_compute in He; discriminate |].
  split; [vm_compute; reflexivity |].
  split; [exact Hentries |]. split; [exact Hcalls | exact Hquiet].
Defined.

(** C5 fails in the code at a key that names a method of
    [Object.prototype]: on the store as it is constructed, the first
    download under the identity ["constructor"] finds that method where it
    looks for an earlier entry, and records an entry without [createdOn];
    such an entry is never expired. *)
Theorem createdOn_missing_under_inherited_name :
  entries (state SampleInherited.pending) !! "constructor"%string = None
  /\ entries (state (@step Sample.platform SampleInherited.pending
                       (ISettle 0 true "5000")).1) !! "constructor"%string
     = Some (mkEntry None "/cache/RN_Default_ImageStore" "constructor.png")
  /\ forall now : Z,
       @isExpired Sample.platform instance now
         (mkEntry None "/cache/RN_Default_ImageStore" "constructor.png") = false.
Proof.
  split; [reflexivity |]. split; [vm_compute; reflexivity |].
  intros now. reflexivity.
Qed.

Lemma failed_write_skips_notification_witness :
  (exists e : Entry,
     @_getEntry Sample.platform
       (state (@step Sample.platform
                 (@step Sample.platform SampleAwaited.fetching
                    (ISettle 0 true "5000")).1 (ISettle 0 false "6000")).1)
       Sample.png = Item e
     /\ calls ((@step Sample.platform SampleAwaited.fetching
                  (ISettle 0 true "5000")).2
               ++ (@step Sample.platform
                     (@step Sample.platform SampleAwaited.fetching
                        (ISettle 0 true "5000")).1 (ISettle 0 false "6000")).2) = [])
  /\ handlers (state SampleAwaited.fetching) !! SampleNotify.address
     = Some [SampleNotify.second]
  /\ calls (@step Sample.platform
              (@step Sample.platform SampleAwaited.fetching
                 (ISettle 0 true "5000")).1 (ISettle 0 true "6000")).2
     = [(2%nat, SampleNotify.address,
         "/cache/RN_Default_ImageStore/sha1:https://example.com/a.png.png"%string)].
Proof.
  destruct (@failed_write_skips_notification Sample.platform
              SampleAwaited.fetching 0%nat Sample.png "5000" "6000")
    as [(e & _ & _ & Hcalls & _ & Hentry & _) _]; [reflexivity |].
  split; [exists e; split; [exact Hentry | exact Hcalls] |].
  split; [reflexivity | vm_compute; reflexivity].
Defined.
(** ** The expiry sweep *)

Section Sweep.
Context `{Platform}.

Lemma elem_of_expired (s : State) (now : Z) (k : string) :
  k ∈ _getExpiredImages s now <->
  exists e, entries s !! k = Some e /\ isExpired s now e = true.
Proof.
  unfold _getExpiredImages. rewrite list_elem_of_omap. split.
  - intros ([k' e] & Hin & Hf). cbn in Hf.
    apply elem_of_map_to_list in Hin.
    destruct (isExpired s now e) eqn:Hexp; [| discriminate].
    injection Hf as ->. eauto.
  - intros (e & Hk & Hexp). exists (k, e). split.
    + apply elem_of_map_to_list, Hk.
    + cbn. rewrite Hexp. reflexivity.
Qed.

Lemma silent_facts (t : list Effect) :
  Forall silent t ->
  writes t = [] /\ reads t = [] /\ calls t = [] /\ (Completion ∉ t).
Proof.
  induction 1 as [| e t He _ (IHw & IHr & IHc & IHn)].
  - repeat split; try reflexivity. apply not_elem_of_nil.
  - destruct e; try contradiction; cbn; repeat split; try assumption;
      apply not_elem_of_cons; split; (discriminate || assumption).
Qed.

Lemma silent_log (s : State) (args : list string) : Forall silent (log s args).
Proof.
  unfold log. destruct (debugMode (store s)); repeat constructor.
Qed.

Lemma silent_unlinks (f : string -> string) (l : list string) :
  Forall silent (map (fun k => Unlink (f k)) l).
Proof. induction l; constructor; [exact I | assumption]. Qed.

Lemma unlink_settled_frame (s : State) (k : string) (ok : bool) :
  store (unlink_settled s k ok).1 = store s
  /\ handlers (unlink_settled s k ok).1 = handlers s
  /\ Forall silent (unlink_settled s k ok).2.
Proof.
  unfold unlink_settled. destruct ok; cbn [fst snd];
    repeat split; (constructor || apply silent_log).
Qed.

Lemma unlinks_settled_frame (ok : string -> bool) (order : list string) (s : State) :
  store (unlinks_settled s ok order).1 = store s
  /\ handlers (unlinks_settled s ok order).1 = handlers s
  /\ Forall silent (unlinks_settled s ok order).2.
Proof.
  revert s. induction order as [| k rest IH]; intros s; cbn [unlinks_settled].
  - repeat split. constructor.
  - destruct (unlink_settled_frame s k (ok k)) as (Hs1 & Hh1 & Hq1).
    destruct (unlink_settled s k (ok k)) as [s1 t1]. cbn [fst snd] in *.
    destruct (IH s1) as (Hs2 & Hh2 & Hq2).
    destruct (unlinks_settled s1 ok rest) as [s2 t2]. cbn [fst snd] in *.
    repeat split; [congruence | congruence |].
    apply Forall_app. auto.
Qed.

Lemma unlinks_settled_removed
    (ok : string -> bool) (order : list string) (s : State) (k : string) :
  k ∈ order -> ok k = true ->
  entries (unlinks_settled s ok order).1 !! k = None.
Proof.
  revert s. induction order as [| k0 rest IH]; intros s Hin Hok;
    [apply elem_of_nil in Hin; contradiction |].
  cbn [unlinks_settled].
  destruct (decide (k ∈ rest)) as [Hrest | Hrest].
  - destruct (unlink_settled s k0 (ok k0)) as [s1 t1].
    specialize (IH s1 Hrest Hok).
    destruct (unlinks_settled s1 ok rest) as [s2 t2]. exact IH.
  - apply elem_of_cons in Hin as [-> | Hin]; [| contradiction].
    unfold unlink_settled. rewrite Hok.
    clear IH. set (s1 := setEntries s (delete k0 (entries s))).
    assert (Hgone : entries s1 !! k0 = None) by apply lookup_delete_eq.
    clearbody s1. revert s1 Hgone.
    induction rest as [| k1 rest IH]; intros s1 Hgone; [exact Hgone |].
    cbn [unlinks_settled].
    apply not_elem_of_cons in Hrest as [Hne Hrest].
    unfold unlink_settled at 1.
    destruct (ok k1).
    + specialize (IH Hrest (setEntries s1 (delete k1 (entries s1)))).
      destruct (unlinks_settled (setEntries s1 (delete k1 (entries s1))) ok rest).
      cbn [fst app] in *. apply IH. cbn. rewrite lookup_delete_ne by congruence.
      exact Hgone.
    + specialize (IH Hrest s1 Hgone).
      destruct (unlinks_settled s1 ok rest). cbn [fst] in *. exact IH.
Qed.

Lemma unlinks_settled_kept
    (ok : string -> bool) (order : list string) (s : State) (k : string) :
  k ∉ order \/ ok k = false ->
  entries (unlinks_settled s ok order).1 !! k = entries s !! k.
Proof.
  revert s. induction order as [| k0 rest IH]; intros s Hk; [reflexivity |].
  cbn [unlinks_settled].
  assert (Hrest : k ∉ rest \/ ok k = false).
  { destruct Hk as [Hk | Hk]; [| auto]. apply not_elem_of_cons in Hk. tauto. }
  assert (Hhere : entries (unlink_settled s k0 (ok k0)).1 !! k = entries s !! k).
  { unfold unlink_settled. destruct (ok k0) eqn:Hok0; [| reflexivity].
    cbn. apply lookup_delete_ne. intros ->.
    destruct Hk as [Hk | Hk]; [| congruence].
    apply Hk. left. }
  destruct (unlink_settled s k0 (ok k0)) as [s1 t1]. cbn [fst] in Hhere.
  specialize (IH s1 Hrest).
  destruct (unlinks_settled s1 ok rest) as [s2 t2]. cbn [fst] in *. congruence.
Qed.

Lemma unlinks_settled_logged
    (ok : string -> bool) (order : list string) (s : State) (k : string) :
  k ∈ order -> ok k = false -> debugMode (store s) = true ->
  Log ["unable to remove image"%string; k] ∈ (unlinks_settled s ok order).2.
Proof.
  revert s. induction order as [| k0 rest IH]; intros s Hin Hok Hdebug;
    [apply elem_of_nil in Hin; contradiction |].
  cbn [unlinks_settled].
  destruct (unlink_settled_frame s k0 (ok k0)) as (Hs1 & _).
  apply elem_of_cons in Hin as [<- | Hin].
  - unfold unlink_settled. rewrite Hok.
    destruct (unlinks_settled s ok rest) as [s2 t2]. cbn [snd].
    unfold log. rewrite Hdebug. left.
  - destruct (unlink_settled s k0 (ok k0)) as [s1 t1]. cbn [fst] in Hs1.
    assert (Hdebug1 : debugMode (store s1) = true) by congruence.
    specialize (IH s1 Hin Hok Hdebug1).
    destruct (unlinks_settled s1 ok rest) as [s2 t2]. cbn [snd] in *.
    apply elem_of_app. right. exact IH.
Qed.

Lemma removeExpired_none
    (s : State) (now : Z) (cb : bool) (ok : string -> bool) (order : list string) :
  _getExpiredImages s now = [] ->
  _removeExpiredImages s now cb ok order
  = (s, log s ["uris to remove from offline store"]
          ++ log s ["No images to remove:"] ++ onRestoreCompletion cb).
Proof.
  intros Hnil. unfold _removeExpiredImages. rewrite Hnil.
  cbn [length Nat.ltb Nat.leb map]. rewrite app_nil_r. reflexivity.
Qed.

Lemma removeExpired_some
    (s : State) (now : Z) (cb : bool) (ok : string -> bool) (order : list string) :
  _getExpiredImages s now <> [] ->
  _removeExpiredImages s now cb ok order
  = ((unlinks_settled s ok order).1,
     (log s ["uris to remove from offline store"]
        ++ map (fun k => Unlink (unlinkPath s k)) (_getExpiredImages s now))
       ++ log s ["Found images to remove:"]
       ++ (unlinks_settled s ok order).2
       ++ log (unlinks_settled s ok order).1 ["removeExpiredImages completed callback"]
       ++ _updateAsyncStorage (unlinks_settled s ok order).1 cb).
Proof.
  intros Hne. unfold _removeExpiredImages.
  destruct (_getExpiredImages s now) as [| k l]; [contradiction |].
  cbn [length Nat.ltb Nat.leb]. destruct (unlinks_settled s ok order). reflexivity.
Qed.

(** C3, as the code has it: the sweep removes the entry of an expired key
    from the dictionary when the deletion of its file succeeds; when the
    deletion fails the entry stays in the dictionary, and the failure is
    logged in debug mode.  Entries that are not expired are left alone. *)
Theorem sweep_removes_entry_when_unlinked
    (s : State) (now : Z) (cb : bool) (ok : string -> bool) (order : list string)
    (k : string) :
  order ≡ₚ _getExpiredImages s now ->
  let r := _removeExpiredImages s now cb ok order in
  (k ∈ _getExpiredImages s now -> ok k = true -> entries r.1 !! k = None)
  /\ (k ∈ _getExpiredImages s now -> ok k = false ->
      entries r.1 !! k = entries s !! k /\ is_Some (entries s !! k)
      /\ (debugMode (store s) = true ->
          Log ["unable to remove image"%string; k] ∈ r.2))
  /\ (k ∉ _getExpiredImages s now -> entries r.1 !! k = entries s !! k).
Proof.
  intros Hperm r. subst r.
  destruct (decide (_getExpiredImages s now = [])) as [Hnil | Hne].
  - rewrite (removeExpired_none s now cb ok order Hnil). cbn [fst snd].
    rewrite Hnil. split; [| split]; try reflexivity;
      intros Hin; apply elem_of_nil in Hin; contradiction.
  - rewrite (removeExpired_some s now cb ok order Hne). cbn [fst snd].
    split; [| split].
    + intros Hin Hok. apply unlinks_settled_removed; [| exact Hok].
      rewrite Hperm. exact Hin.
    + intros Hin Hok. split; [| split].
      * apply unlinks_settled_kept. auto.
      * apply elem_of_expired in Hin as (e & -> & _). eauto.
      * intros Hdebug. rewrite !elem_of_app. right. right. left.
        apply unlinks_settled_logged; [| assumption ..].
        rewrite Hperm. exact Hin.
    + intros Hout. apply unlinks_settled_kept. left. rewrite Hperm. exact Hout.
Qed.

(** C6, as the code has it: when at least one entry is expired the sweep
    issues the deletions, lets them all settle, then writes the dictionary
    that remains to AsyncStorage exactly once, and raises the completion
    signal after that write; when no entry is expired it raises the
    completion signal at once and writes nothing. *)
Theorem sweep_persists_once_when_expired
    (s : State) (now : Z) (ok : string -> bool) (order : list string) :
  order ≡ₚ _getExpiredImages s now ->
  let r := _removeExpiredImages s now true ok order in
  (_getExpiredImages s now <> [] ->
   exists pre,
     r.2 = pre ++ [SetItem (storageKey r.1) (JSON_stringify (entries r.1)); Completion]
     /\ writes pre = [] /\ (Completion ∉ pre)
     /\ (forall k, k ∈ _getExpiredImages s now -> Unlink (unlinkPath s k) ∈ pre)
     /\ (forall k, k ∈ _getExpiredImages s now -> ok k = true ->
         entries r.1 !! k = None)
     /\ length (writes r.2) = 1%nat)
  /\ (_getExpiredImages s now = [] ->
      r.1 = s /\ writes r.2 = []
      /\ exists pre, r.2 = pre ++ [Completion] /\ (Completion ∉ pre)).
Proof.
  intros Hperm r. subst r. split.
  - intros Hne. rewrite (removeExpired_some s now true ok order Hne). cbn [fst snd].
    destruct (unlinks_settled_frame ok order s) as (_ & _ & Hquiet).
    set (issued := log s ["uris to remove from offline store"]
                   ++ map (fun k => Unlink (unlinkPath s k)) (_getExpiredImages s now)).
    set (r := unlinks_settled s ok order) in *.
    set (pre := issued ++ log s ["Found images to remove:"] ++ r.2
                  ++ log r.1 ["removeExpiredImages completed callback"]).
    assert (Hpre : Forall silent pre).
    { subst pre issued. rewrite !Forall_app.
      repeat split; auto using silent_log, silent_unlinks. }
    destruct (silent_facts pre Hpre) as (Hw & _ & _ & Hc).
    exists pre. split; [| split; [| split; [| split; [| split]]]].
    + subst pre. unfold _updateAsyncStorage. rewrite <- !app_assoc. reflexivity.
    + exact Hw.
    + exact Hc.
    + intros k Hin. subst pre issued. rewrite !elem_of_app. left. right.
      apply (list_elem_of_fmap_2 (fun k => Unlink (unlinkPath s k))). exact Hin.
    + intros k Hin Hok. subst r. apply unlinks_settled_removed; [| exact Hok].
      rewrite Hperm. exact Hin.
    + replace (issued ++ log s ["Found images to remove:"] ++ r.2
                 ++ log r.1 ["removeExpiredImages completed callback"]
                 ++ _updateAsyncStorage r.1 true)
        with (pre ++ _updateAsyncStorage r.1 true)
        by (subst pre; rewrite <- !app_assoc; reflexivity).
      unfold writes in *. rewrite omap_app, Hw. reflexivity.
  - intros Hnil. rewrite (removeExpired_none s now true ok order Hnil). cbn [fst snd].
    set (pre := log s ["uris to remove from offline store"]
                ++ log s ["No images to remove:"]).
    assert (Hpre : Forall silent pre).
    { subst pre. rewrite Forall_app. split; apply silent_log. }
    destruct (silent_facts pre Hpre) as (Hw & _ & _ & Hc).
    split; [reflexivity |]. split.
    + replace (log s ["uris to remove from offline store"]
                 ++ log s ["No images to remove:"] ++ onRestoreCompletion true)
        with (pre ++ [Completion])
        by (subst pre; rewrite <- app_assoc; reflexivity).
      unfold writes in *. rewrite omap_app, Hw. reflexivity.
    + exists pre. split; [| exact Hc].
      subst pre. rewrite <- app_assoc. reflexivity.
Qed.

End Sweep.

Example aged_expired :
  @_getExpiredImages Sample.platform SampleSweep.aged 200000 = ["logo"%string].
Proof. vm_compute. reflexivity. Qed.

(** C3 as it was claimed fails: the key is expired, the deletion of its
    file fails, and the entry is still in the dictionary after the sweep. *)
Lemma sweep_failed_unlink_counterexample :
  @_getExpiredImages Sample.platform SampleSweep.aged 200000 = ["logo"%string]
  /\ SampleSweep.never "logo" = false
  /\ entries (@_removeExpiredImages Sample.platform SampleSweep.aged 200000 true
                SampleSweep.never ["logo"%string]).1 !! "logo"%string
     = Some SampleSweep.logo.
Proof. repeat split; vm_compute; reflexivity. Qed.

Lemma sweep_removes_entry_when_unlinked_witness :
  entries (@_removeExpiredImages Sample.platform SampleSweep.aged 200000 true
             SampleSweep.always ["logo"%string]).1 !! "logo"%string = None
  /\ entries (@_removeExpiredImages Sample.platform SampleSweep.aged 200000 true
                SampleSweep.never ["logo"%string]).1 !! "logo"%string
     = entries SampleSweep.aged !! "logo"%string
  /\ Log ["unable to remove image"%string; "logo"%string]
       ∈ (@_removeExpiredImages Sample.platform SampleSweep.aged 200000 true
            SampleSweep.never ["logo"%string]).2.
Proof.
  assert (Hin : "logo"%string ∈ @_getExpiredImages Sample.platform SampleSweep.aged 200000)
    by (rewrite aged_expired; left).
  split.
  - destruct (@sweep_removes_entry_when_unlinked Sample.platform SampleSweep.aged
                200000 true SampleSweep.always ["logo"%string] "logo"%string)
      as (Hremoved & _).
    + rewrite aged_expired. reflexivity.
    + apply Hremoved; [exact Hin | reflexivity].
  - destruct (@sweep_removes_entry_when_unlinked Sample.platform SampleSweep.aged
                200000 true SampleSweep.never ["logo"%string] "logo"%string)
      as (_ & Hkept & _).
    + rewrite aged_expired. reflexivity.
    + destruct Hkept as (Hsame & _ & Hlogged); [exact Hin | reflexivity |].
      split; [exact Hsame | apply Hlogged; reflexivity].
Defined.

(** C6 as it was claimed fails: with nothing expired the sweep raises the
    completion signal without any write to AsyncStorage. *)
Lemma sweep_persist_counterexample :
  @_getExpiredImages Sample.platform instance 200000 = []
  /\ (@_removeExpiredImages Sample.platform instance 200000 true
        SampleSweep.always []).2 = [Completion]
  /\ length (writes (@_removeExpiredImages Sample.platform instance 200000 true
                       SampleSweep.always []).2) <> 1%nat.
Proof. repeat split; vm_compute; (reflexivity || discriminate). Qed.

Lemma sweep_persists_once_when_expired_witness :
  exists pre,
    (@_removeExpiredImages Sample.platform SampleSweep.aged 200000 true
       SampleSweep.always ["logo"%string]).2
    = pre ++ [SetItem "@Gallery:uris" "banner=900000000|/cache/Gallery|banner.jpg;";
              Completion]
    /\ writes pre = [] /\ (Completion ∉ pre).
Proof.
  destruct (@sweep_persists_once_when_expired Sample.platform SampleSweep.aged
              200000 SampleSweep.always ["logo"%string]) as (Hsome & _).
  - rewrite aged_expired. reflexivity.
  - destruct Hsome as (pre & Heq & Hw & Hc & _).
    + rewrite aged_expired. discriminate.
    + exists pre. split; [| split; assumption].
      rewrite Heq. vm_compute. reflexivity.
Defined.

(** ** Merging a stored dictionary *)

Section Assign.
Context `{Platform}.

(** What [Object.assign] leaves: own keys are taken from the assigned
    dictionary first and from the store otherwise, except that the key
    [__proto__], when the store has no own property of that name, goes to
    the prototype. *)
Lemma Object_assign_spec (s : State) (m : gmap string Entry) :
  store (Object_assign s m) = store s
  /\ handlers (Object_assign s m) = handlers s
  /\ (forall k, k <> "__proto__"%string \/ is_Some (entries s !! k) ->
        entries (Object_assign s m) !! k = (m ∪ entries s) !! k)
  /\ (entries s !! "__proto__"%string = None ->
      entries (Object_assign s m) !! "__proto__"%string = None
      /\ entriesProto (Object_assign s m)
         = match m !! "__proto__"%string with
           | Some p => Some p
           | None => entriesProto s
           end).
Proof.
  unfold Object_assign.
  apply (map_fold_weak_ind
           (fun (r : State) (m : gmap string Entry) =>
              store r = store s
              /\ handlers r = handlers s
              /\ (forall k, k <> "__proto__"%string \/ is_Some (entries s !! k) ->
                    entries r !! k = (m ∪ entries s) !! k)
              /\ (entries s !! "__proto__"%string = None ->
                  entries r !! "__proto__"%string = None
                  /\ entriesProto r
                     = match m !! "__proto__"%string with
                       | Some p => Some p
                       | None => entriesProto s
                       end))).
  - repeat split; try reflexivity.
    + intros k _. rewrite (left_id_L ∅ (∪)). reflexivity.
    + assumption.
  - intros i x m' r Hi (Hs & Hh & Hown & Hproto).
    destruct (entries_set_frame r i x) as [Hs' Hh'].
    split; [congruence |]. split; [congruence |].
    destruct (decide (is_Some (entries r !! i) \/ i <> "__proto__"%string))
      as [Hcase | Hcase].
    + destruct (entries_set_own r i x Hcase) as [He Hp]. rewrite He, Hp. split.
      * intros k Hk. destruct (decide (k = i)) as [-> | Hne].
        -- rewrite lookup_insert_eq. symmetry.
           apply lookup_union_Some_l, lookup_insert_eq.
        -- rewrite lookup_insert_ne by congruence. rewrite (Hown k Hk).
           rewrite !lookup_union, lookup_insert_ne by congruence. reflexivity.
      * intros Hnone. destruct (Hproto Hnone) as [Hr Hq].
        assert (Hne : i <> "__proto__"%string).
        { destruct Hcase as [[e He'] | Hne]; [| exact Hne].
          intros ->. congruence. }
        rewrite !lookup_insert_ne by exact Hne. auto.
    + assert (Hiproto : i = "__proto__"%string).
      { destruct (decide (i = "__proto__"%string)); [assumption | tauto]. }
      assert (Hfree : entries r !! i = None).
      { destruct (entries r !! i) eqn:Hr; [| reflexivity].
        exfalso. apply Hcase. left. eauto. }
      subst i. unfold entries_set. rewrite Hfree.
      destruct (decide ("__proto__"%string = "__proto__"%string)); [| congruence].
      cbn [setEntriesProto entries entriesProto]. split.
      * intros k Hk. destruct (decide (k = "__proto__"%string)) as [-> | Hne].
        -- exfalso. rewrite (Hown _ Hk) in Hfree.
           rewrite lookup_union, Hi in Hfree.
           destruct Hk as [Hk | [e0 He']]; [congruence |].
           rewrite He' in Hfree. discriminate.
        -- rewrite (Hown k Hk).
           rewrite !lookup_union, lookup_insert_ne by congruence. reflexivity.
      * intros _. rewrite lookup_insert_eq. auto.
Qed.

End Assign.


(** ** The AsyncStorage key *)

Section Storage.
Context `{Platform}.

Lemma offStorage_silent (t : list Effect) : Forall silent t -> Forall offStorage t.
Proof.
  intros Ht. apply (Forall_impl _ _ _ Ht).
  intros e He. destruct e; try contradiction; exact I.
Qed.

Lemma offStorage_resume (s : State) (u : string) (e : Entry) (stored : bool) :
  Forall offStorage (_updateOfflineStore_resume s u e stored).
Proof.
  unfold _updateOfflineStore_resume. destruct stored; [| apply offStorage_log].
  pose proof (offStorage_notify s u e) as Hn.
  destruct (_notify s u e) as [t fine]. cbn [fst] in Hn.
  destruct fine; [exact Hn |].
  rewrite Forall_app. split; [exact Hn | apply offStorage_log].
Qed.

Lemma step_storage (w : World) (i : Input) :
  reads (step w i).2 = []
  /\ (writes (step w i).2 = []
      \/ writes (step w i).2
         = [(storageKey (state (step w i).1),
             JSON_stringify (entries (state (step w i).1)))]).
Proof.
  destruct i as [h p | p | src | i ok now].
  - destruct (step_request_quiet w (ISubscribe h p) p eq_refl) as (_ & -> & ->).
    auto.
  - destruct (step_request_quiet w (IPrefetch p) p eq_refl) as (_ & -> & ->).
    auto.
  - cbn. auto.
  - cbn [step].
    unfold settle. destruct (tasks w !! i) as [[props | u e] |]; [| | cbn; auto].
    + destruct ok.
      * unfold _downloadImage_then.
        destruct (_addEntry (state w) (_getEntryProps props).1 (filename props) now)
          as [s1 entry].
        cbn. auto.
      * cbn [fst snd]. unfold _downloadImage_catch.
        destruct (offStorage_facts _ (offStorage_log (state w)
                    ["Failed to download image"%string; uri (source props)])).
        auto.
    + cbn [fst snd].
      destruct (offStorage_facts _ (offStorage_resume (state w) u e ok)). auto.
Qed.

Lemma sweep_storage
    (s : State) (now : Z) (cb : bool) (ok : string -> bool) (order : list string) :
  let r := _removeExpiredImages s now cb ok order in
  reads r.2 = []
  /\ (writes r.2 = []
      \/ writes r.2 = [(storageKey r.1, JSON_stringify (entries r.1))]).
Proof.
  intros r. subst r.
  destruct (decide (_getExpiredImages s now = [])) as [Hnil | Hne].
  - rewrite (removeExpired_none s now cb ok order Hnil). cbn [fst snd].
    assert (Hq : Forall offStorage
                   (log s ["uris to remove from offline store"]
                      ++ log s ["No images to remove:"] ++ onRestoreCompletion cb)).
    { rewrite !Forall_app. repeat split; try apply offStorage_log.
      destruct cb; repeat constructor. }
    destruct (offStorage_facts _ Hq). auto.
  - rewrite (removeExpired_some s now cb ok order Hne). cbn [fst snd].
    destruct (unlinks_settled_frame ok order s) as (_ & _ & Hquiet).
    set (r := unlinks_settled s ok order) in *.
    rewrite !app_assoc.
    set (pre := ((((log s ["uris to remove from offline store"]
                      ++ map (fun k => Unlink (unlinkPath s k)) (_getExpiredImages s now))
                     ++ log s ["Found images to remove:"]) ++ r.2)
                   ++ log r.1 ["removeExpiredImages completed callback"])).
    assert (Hpre : Forall offStorage pre).
    { subst pre. apply offStorage_silent. rewrite !Forall_app.
      repeat split; auto using silent_log, silent_unlinks. }
    destruct (offStorage_facts pre Hpre) as [Hw Hr].
    unfold writes, reads in *. rewrite !omap_app, Hw, Hr.
    unfold _updateAsyncStorage. destruct cb; cbn; auto.
Qed.

Lemma restore_storage
    (s : State) (uris : option string)
    (now : Z) (cb : bool) (ok : string -> bool) (order : list string) :
  let r := restore_onGetItem s uris now cb ok order in
  reads r.2 = []
  /\ (writes r.2 = []
      \/ writes r.2 = [(storageKey r.1, JSON_stringify (entries r.1))]).
Proof.
  intros r. subst r. unfold restore_onGetItem.
  set (merged := match uris with
                 | Some blob =>
                     match JSON_parse blob with
                     | Some m => Some (Object_assign s m)
                     | None => None
                     end
                 | None => Some s
                 end).
  destruct merged as [s1 |]; [| cbn; auto].
  pose proof (sweep_storage s1 now cb ok order) as [Hr Hw].
  destruct (_removeExpiredImages s1 now cb ok order) as [s2 t]. cbn [fst snd] in *.
  destruct (offStorage_facts _ (offStorage_log s1
              ["Restored offline images entry dictionary"%string])) as [Hlw Hlr].
  unfold writes, reads in *. rewrite !omap_app, Hlw, Hlr. auto.
Qed.

(** C9, as the code has it: the key of every read and every write of
    AsyncStorage is ["@"], the name of the store at that moment, and
    [":uris"]: [restore] reads that key once, under the name it has just
    taken from its configuration, and writes nothing; a step of the event
    loop, a sweep and the callback of that read themselves read nothing, and
    what they write is the [JSON.stringify] of the whole dictionary under
    that key. *)
Theorem storage_key_is_at_name_uris :
  (forall s config s1 t,
     restore s config = inr (s1, t) ->
     cfg_name config = Some (name (store s1))
     /\ reads t = ["@" +:+ name (store s1) +:+ ":uris"] /\ writes t = [])
  /\ (forall w i,
        reads (step w i).2 = []
        /\ forall k v, (k, v) ∈ writes (step w i).2 ->
             k = "@" +:+ name (store (state (step w i).1)) +:+ ":uris"
             /\ v = JSON_stringify (entries (state (step w i).1)))
  /\ (forall s now cb ok order,
        reads (_removeExpiredImages s now cb ok order).2 = []
        /\ forall k v, (k, v) ∈ writes (_removeExpiredImages s now cb ok order).2 ->
             k = "@" +:+ name (store (_removeExpiredImages s now cb ok order).1) +:+ ":uris"
             /\ v = JSON_stringify (entries (_removeExpiredImages s now cb ok order).1))
  /\ (forall s uris now cb ok order,
        reads (restore_onGetItem s uris now cb ok order).2 = []
        /\ forall k v, (k, v) ∈ writes (restore_onGetItem s uris now cb ok order).2 ->
             k = "@" +:+ name (store (restore_onGetItem s uris now cb ok order).1) +:+ ":uris"
             /\ v = JSON_stringify (entries (restore_onGetItem s uris now cb ok order).1)).
Proof.
  split; [| split; [| split]]; cycle 3.
  { intros s uris now cb ok order.
    destruct (restore_storage s uris now cb ok order) as [Hr [Hw | Hw]];
      (split; [exact Hr |]); intros k v Hin; rewrite Hw in Hin.
    + apply elem_of_nil in Hin. contradiction.
    + apply list_elem_of_singleton in Hin. injection Hin as -> ->.
      split; reflexivity. }
  - intros s config s1 t Hrestore.
    destruct (restore_inr _ _ _ _ Hrestore) as (_ & _ & Hname & -> & _).
    split; [exact Hname |]. split; reflexivity.
  - intros w i. destruct (step_storage w i) as [Hr [Hw | Hw]];
      (split; [exact Hr |]); intros k v Hin; rewrite Hw in Hin.
    + apply elem_of_nil in Hin. contradiction.
    + apply list_elem_of_singleton in Hin. injection Hin as -> ->.
      split; reflexivity.
  - intros s now cb ok order.
    destruct (sweep_storage s now cb ok order) as [Hr [Hw | Hw]];
      (split; [exact Hr |]); intros k v Hin; rewrite Hw in Hin.
    + apply elem_of_nil in Hin. contradiction.
    + apply list_elem_of_singleton in Hin. injection Hin as -> ->.
      split; reflexivity.
Qed.

End Storage.

(** C9 as it was claimed fails: the write of a settled download goes to the
    key that starts with ["@"], not to the name followed by [":uris"]. *)
Lemma storage_key_counterexample :
  writes (@step Sample.platform SampleDownload.pending (ISettle 0 true "5000")).2
  = [("@RN_Default_ImageStore:uris"%string,
      "sha1:https://example.com/a.png=5000|/cache/RN_Default_ImageStore|sha1:https://example.com/a.png.png;"%string)]
  /\ "@RN_Default_ImageStore:uris"%string
     <> name (store (state SampleDownload.pending)) +:+ ":uris".
Proof. split; [vm_compute; reflexivity |]. vm_compute. discriminate. Qed.

Lemma storage_key_is_at_name_uris_witness :
  reads [GetItem "@Gallery:uris"] = ["@Gallery:uris"%string]
  /\ (forall k v,
        (k, v) ∈ writes (@step Sample.platform SampleDownload.pending
                           (ISettle 0 true "5000")).2 ->
        k = "@RN_Default_ImageStore:uris"%string).
Proof.
  destruct (@storage_key_is_at_name_uris Sample.platform)
    as (Hrestore & Hstep & _ & _).
  split.
  - destruct (Hrestore SampleCached.cached SampleCached.renamed SampleCached.moved
                [GetItem "@Gallery:uris"%string]) as (_ & Hreads & _);
      [reflexivity | exact Hreads].
  - intros k v Hin.
    destruct (Hstep SampleDownload.pending (ISettle 0 true "5000")) as [_ Hw].
    destruct (Hw k v Hin) as [Hk _]. exact Hk.
Defined.
(** * Further properties *)

(** ** File names *)

Section FileNames.
Context `{Platform}.

(** The part of the uri the extension is taken from is free of ['?'], and
    free of ['/'] behind a possible first character. *)
Lemma path_shape (u : string) :
  let path :=
    JsString.split0 "?" (JsString.substring (JsString.lastIndexOf "/" u) u) in
  exists q, (path = q \/ path = String "/" q)
            /\ occurs "/" q = false /\ occurs "?" q = false.
Proof.
  intros path. subst path.
  destruct (lastSuffix_cases "/" u) as [[Hno ->] | (pre & t & _ & Hno & ->)].
  - exists (JsString.split0 "?" u). split; [left; reflexivity |].
    split; [apply split0_keeps_free, Hno | apply split0_free].
  - exists (JsString.split0 "?" t). split; [right; reflexivity |].
    split; [apply split0_keeps_free, Hno | apply split0_free].
Qed.

Lemma extension_cases (props : Props) :
  let path :=
    JsString.split0 "?"
      (JsString.substring (JsString.lastIndexOf "/" (uri (source props)))
         (uri (source props))) in
  (occurs "." path = false /\ (_getEntryProps props).2 = ".jpg"%string)
  \/ (exists pre t, path = pre +:+ String "." t /\ occurs "." t = false
                    /\ (_getEntryProps props).2 = String "." t).
Proof.
  intros path. unfold _getEntryProps. cbn [snd]. fold path.
  destruct (Z.eqb_spec (JsString.indexOf "." path) (-1)) as [Hnone | Hsome].
  - left. split; [| reflexivity].
    apply (indexOf_from_none "." path 0); [lia | exact Hnone].
  - right. apply (indexOf_from_some "." path 0) in Hsome; [| lia].
    destruct (lastSuffix_cases "." path) as [[Hno _] | (pre & t & Hp & Hno & Hs)];
      [congruence |].
    exists pre, t. auto.
Qed.

Lemma app_dot_inj (a b t t' : string) :
  a +:+ String "." t = b +:+ String "." t' ->
  occurs "." t = false -> occurs "." t' = false ->
  a = b /\ t = t'.
Proof.
  revert b. induction a as [| x a IH]; intros [| y b] Heq Ht Ht'; simpl in Heq.
  - injection Heq as ->. auto.
  - injection Heq as <- ->. rewrite occurs_app in Ht. simpl in Ht.
    rewrite orb_true_r in Ht. discriminate.
  - injection Heq as -> <-. rewrite occurs_app in Ht'. simpl in Ht'.
    rewrite orb_true_r in Ht'. discriminate.
  - injection Heq as -> Heq. destruct (IH b Heq Ht Ht') as [-> ->]. auto.
Qed.

Lemma lastSuffix_none (c : ascii) (s : string) :
  occurs c s = false ->
  JsString.substring (JsString.lastIndexOf c s) s = s.
Proof.
  intros Hs. destruct (lastSuffix_cases c s) as [[_ Hr] | (pre & t & -> & _ & _)];
    [exact Hr |].
  rewrite occurs_app in Hs. simpl in Hs. rewrite Ascii.eqb_refl in Hs.
  rewrite orb_true_r in Hs. discriminate.
Qed.

Lemma app_last_inj (c : ascii) (a b t t' : string) :
  a +:+ String c t = b +:+ String c t' ->
  occurs c t = false -> occurs c t' = false ->
  t = t'.
Proof.
  assert (Hin : forall x y, occurs c (x +:+ String c y) = true).
  { intros x y. rewrite occurs_app. simpl. rewrite Ascii.eqb_refl.
    apply orb_true_r. }
  revert b. induction a as [| x a IH]; intros [| y b] Heq Ht Ht'; simpl in Heq.
  - injection Heq as ->. reflexivity.
  - injection Heq as _ ->. rewrite Hin in Ht. discriminate.
  - injection Heq as _ <-. rewrite Hin in Ht'. discriminate.
  - injection Heq as _ Heq. exact (IH b Heq Ht Ht').
Qed.

Lemma lastSuffix_at (c : ascii) (a r : string) :
  occurs c r = false ->
  JsString.substring (JsString.lastIndexOf c (a +:+ String c r)) (a +:+ String c r)
  = String c r.
Proof.
  intros Hr.
  destruct (lastSuffix_cases c (a +:+ String c r))
    as [[Hno _] | (pre & t & Heq & Ht & ->)].
  - rewrite occurs_app in Hno. simpl in Hno. rewrite Ascii.eqb_refl in Hno.
    rewrite orb_true_r in Hno. discriminate.
  - rewrite (app_last_inj c a pre r t Heq Hr Ht). reflexivity.
Qed.

(** The part of the uri the extension is taken from, for a uri whose last
    segment is [r] and whose last segment has [c] before its first
    question mark. *)
Lemma path_of_segment (u a r c q : string) :
  u = r \/ u = a +:+ String "/" r ->
  occurs "/" r = false ->
  r = c \/ r = c +:+ String "?" q ->
  occurs "?" c = false ->
  let path :=
    JsString.split0 "?" (JsString.substring (JsString.lastIndexOf "/" u) u) in
  path = c \/ path = String "/" c.
Proof.
  intros Hu Hr Hc Hq path. subst path.
  destruct Hu as [-> | ->].
  - left. rewrite (lastSuffix_none "/" r Hr).
    destruct Hc as [-> | ->]; [apply split0_id | apply split0_prefix]; exact Hq.
  - right. rewrite (lastSuffix_at "/" a r Hr).
    destruct Hc as [-> | ->].
    + apply split0_id. simpl. exact Hq.
    + apply (split0_prefix "?" (String "/" c) q). simpl. exact Hq.
Qed.

(** X1: the extension [_getEntryProps] derives is a dot followed by
    characters among which there is no dot, no slash and no question mark,
    whatever the uri.  It is read off the last segment of the uri, the part
    behind its last slash, cut at its first question mark: [.jpg] when that
    part has no dot, and otherwise that part from its last dot on. *)
Theorem extension_shape (props : Props) :
  (exists t, (_getEntryProps props).2 = String "." t
             /\ occurs "." t = false /\ occurs "/" t = false
             /\ occurs "?" t = false)
  /\ (forall a r c q,
        uri (source props) = r \/ uri (source props) = a +:+ String "/" r ->
        occurs "/" r = false ->
        r = c \/ r = c +:+ String "?" q ->
        occurs "?" c = false ->
        (occurs "." c = false -> (_getEntryProps props).2 = ".jpg"%string)
        /\ (forall pre t, c = pre +:+ String "." t -> occurs "." t = false ->
              (_getEntryProps props).2 = String "." t)).
Proof.
  split.
  - destruct (extension_cases props) as [[_ ->] | (pre & t & Hpath & Hdot & ->)].
    + exists "jpg"%string. repeat split; reflexivity.
    + exists t. split; [reflexivity |]. split; [exact Hdot |].
      destruct (path_shape (uri (source props))) as (q & Hq & Hslash & Hquery).
      cbv zeta in Hq. rewrite Hpath in Hq.
      assert (Hin : exists pre', q = pre' +:+ String "." t).
      { destruct Hq as [<- | Hq]; [eauto |].
        destruct pre as [| x pre]; simpl in Hq; [discriminate |].
        injection Hq as _ <-. eauto. }
      destruct Hin as (pre' & ->).
      rewrite occurs_app in Hslash, Hquery. simpl in Hslash, Hquery.
      apply orb_false_iff in Hslash as [_ Hslash].
      apply orb_false_iff in Hquery as [_ Hquery].
      auto.
  - intros a r c q Hu Hr Hc Hq.
    pose proof (path_of_segment (uri (source props)) a r c q Hu Hr Hc Hq) as Hpath.
    cbv zeta in Hpath.
    pose proof (extension_cases props) as Hext. cbv zeta in Hext.
    set (path := JsString.split0 "?"
                   (JsString.substring (JsString.lastIndexOf "/" (uri (source props)))
                      (uri (source props)))) in *.
    assert (Hsame : occurs "." path = occurs "." c)
      by (destruct Hpath as [-> | ->]; reflexivity).
    split.
    + intros Hnone.
      destruct Hext as [[_ He] | (pre & t & Hp & _ & _)]; [exact He |].
      rewrite Hp, occurs_app in Hsame. simpl in Hsame.
      rewrite orb_true_r in Hsame. congruence.
    + intros pre t -> Ht.
      destruct Hext as [[Hno _] | (pre' & t' & Hp & Ht' & ->)].
      * rewrite Hsame, occurs_app in Hno. simpl in Hno.
        rewrite orb_true_r in Hno. discriminate.
      * f_equal.
        destruct Hpath as [Hpath | Hpath]; rewrite Hp in Hpath.
        -- exact (app_last_inj "." pre' pre t' t Hpath Ht' Ht).
        -- exact (app_last_inj "." pre' (String "/" pre) t' t Hpath Ht' Ht).
Qed.

Lemma filename_inj (p1 p2 : Props) :
  filename p1 = filename p2 -> _getEntryProps p1 = _getEntryProps p2.
Proof.
  unfold filename.
  destruct (extension_cases p1) as [[_ He1] | (? & t1 & _ & Hd1 & He1)];
    destruct (extension_cases p2) as [[_ He2] | (? & t2 & _ & Hd2 & He2)];
    destruct (_getEntryProps p1) as [h1 e1], (_getEntryProps p2) as [h2 e2];
    cbn [fst snd] in *; subst e1 e2; intros Heq;
    apply app_dot_inj in Heq as [-> Ht]; try assumption; try reflexivity;
    congruence.
Qed.

(** X2: two descriptors are downloaded to the same file name only when they
    have the same cache key and the same extension; descriptors with
    different keys never share a file name. *)
Theorem filename_determines_key (p1 p2 : Props) :
  (filename p1 = filename p2 <-> _getEntryProps p1 = _getEntryProps p2)
  /\ ((_getEntryProps p1).1 <> (_getEntryProps p2).1 ->
      filename p1 <> filename p2).
Proof.
  split; [split |].
  - apply filename_inj.
  - unfold filename. intros ->. reflexivity.
  - intros Hne Heq. apply Hne. apply filename_inj in Heq. congruence.
Qed.

(** X3: under [ignoreQueryString], a descriptor without identity whose uri
    is [b?q] with no question mark in [b] has the key [SHA1 b], whatever
    the query [q]; a uri without question mark is hashed as it is. *)
Theorem query_string_ignored (props : Props) (b q : string) :
  noIdentity props ->
  ignoreQueryString props = true ->
  occurs "?" b = false ->
  (uri (source props) = b +:+ String "?" q -> (_getEntryProps props).1 = SHA1 b)
  /\ (uri (source props) = b -> (_getEntryProps props).1 = SHA1 b).
Proof.
  intros Hid Hign Hb.
  rewrite (hash_derived props Hid). unfold uriAfterPolicy. rewrite Hign.
  split; intros ->; [rewrite split0_prefix | rewrite split0_id]; auto.
Qed.

End FileNames.

Lemma extension_shape_witness :
  (@_getEntryProps Sample.platform
     (mkProps None true false (mkSource "https://example.com/pic?x=1.5" None None))).2
  = ".jpg"%string
  /\ (@_getEntryProps Sample.platform
        (mkProps None false false
           (mkSource "https://cdn.x/img.v2.png?v=2" None None))).2
     = ".png"%string
  /\ (@_getEntryProps Sample.platform
        (mkProps None false false (mkSource "archive.tar.gz" None None))).2
     = ".gz"%string.
Proof.
  split; [| split].
  - destruct (@extension_shape Sample.platform
                (mkProps None true false
                   (mkSource "https://example.com/pic?x=1.5" None None)))
      as [_ Hread].
    destruct (Hread "https://example.com"%string "pic?x=1.5"%string "pic"%string
                "x=1.5"%string) as [Hdefault _];
      [right; reflexivity | reflexivity | right; reflexivity | reflexivity |].
    apply Hdefault. reflexivity.
  - destruct (@extension_shape Sample.platform
                (mkProps None false false
                   (mkSource "https://cdn.x/img.v2.png?v=2" None None)))
      as [_ Hread].
    destruct (Hread "https://cdn.x"%string "img.v2.png?v=2"%string
                "img.v2.png"%string "v=2"%string) as [_ Hdot];
      [right; reflexivity | reflexivity | right; reflexivity | reflexivity |].
    apply (Hdot "img.v2"%string "png"%string); reflexivity.
  - destruct (@extension_shape Sample.platform
                (mkProps None false false (mkSource "archive.tar.gz" None None)))
      as [_ Hread].
    destruct (Hread EmptyString "archive.tar.gz"%string "archive.tar.gz"%string
                EmptyString) as [_ Hdot];
      [left; reflexivity | reflexivity | left; reflexivity | reflexivity |].
    apply (Hdot "archive.tar"%string "gz"%string); reflexivity.
Defined.

Lemma filename_determines_key_witness :
  @filename Sample.platform Sample.png <> @filename Sample.platform Sample.logo.
Proof.
  destruct (@filename_determines_key Sample.platform Sample.png Sample.logo)
    as [_ Hdiff].
  apply Hdiff. vm_compute. discriminate.
Defined.

Lemma query_string_ignored_witness :
  (@_getEntryProps Sample.platform
     (mkProps None true false (mkSource "https://example.com/a.png?v=2" None None))).1
  = @SHA1 Sample.platform "https://example.com/a.png".
Proof.
  destruct (@query_string_ignored Sample.platform
              (mkProps None true false
                 (mkSource "https://example.com/a.png?v=2" None None))
              "https://example.com/a.png" "v=2") as [Hquery _].
  - left. reflexivity.
  - reflexivity.
  - reflexivity.
  - apply Hquery. reflexivity.
Defined.

(** ** A download from request to notification *)

Section RoundTrip.
Context `{Platform}.

Lemma delete_last (l : list Task) (x : Task) : delete (length l) (l ++ [x]) = l.
Proof. induction l as [| a l IH]; [reflexivity |]. cbn. f_equal. exact IH. Qed.

Lemma lookup_last (l : list Task) (x : Task) : (l ++ [x]) !! length l = Some x.
Proof. rewrite lookup_app_r by lia. rewrite Nat.sub_diag. reflexivity. Qed.

Lemma getImage_miss_calls (s : State) (props : Props) :
  ~ validlyCached s props -> calls (_getImage s props).1 = [].
Proof.
  intros Hmiss. unfold _getImage.
  destruct (_getEntry s props) as [| e | n | | t] eqn:He;
    cbn [truthyValue fst]; rewrite ?calls_app, ?calls_log; try reflexivity.
  - destruct (decide (basePath e = getBaseDir s)) as [Hb | Hb]; [| reflexivity].
    exfalso. apply Hmiss. exists e. auto.
  - destruct (JsString.truthy t); cbn [fst];
      rewrite ?calls_app, ?calls_log; reflexivity.
Qed.

Lemma step_request_miss_calls (w : World) (i : Input) (props : Props) :
  requestProps i = Some props ->
  accepted (state w) i = true ->
  ~ validlyCached (state w) props ->
  calls (step w i).2 = [].
Proof.
  intros Hreq Hacc Hmiss.
  destruct (step_request_state w i props Hreq Hacc) as (Hsame & -> & _).
  apply getImage_miss_calls.
  rewrite (validlyCached_frame _ _ props Hsame). exact Hmiss.
Qed.

(** No step of the event loop touches the configuration of the store. *)
Lemma step_store (w : World) (i : Input) :
  store (state (step w i).1) = store (state w).
Proof.
  destruct i as [h p | p | src | i ok now].
  - destruct (step_request_quiet w (ISubscribe h p) p eq_refl) as ((_ & Hs & _) & _).
    exact Hs.
  - destruct (step_request_quiet w (IPrefetch p) p eq_refl) as ((_ & Hs & _) & _).
    exact Hs.
  - reflexivity.
  - destruct (tasks w !! i) as [[props | u entry] |] eqn:Hi; [destruct ok | |].
    + rewrite (settle_fetch_done w i props now Hi). cbn [fst state].
      apply addEntry_lookup.
    + rewrite (settle_fetch_failed w i props now Hi). reflexivity.
    + rewrite (settle_write w i u entry ok now Hi). reflexivity.
    + cbn [step]. unfold settle. rewrite Hi. reflexivity.
Qed.

Lemma run_store (inputs : list Input) (w : World) :
  store (state (run w inputs).1) = store (state w).
Proof.
  revert w. induction inputs as [| i rest IH]; intros w; [reflexivity |].
  cbn [run]. pose proof (step_store w i) as Hs.
  destruct (step w i) as [w1 t1]. cbn [fst] in Hs.
  specialize (IH w1). destruct (run w1 rest) as [w2 t2]. cbn [fst] in *.
  congruence.
Qed.

Lemma target_store (s s1 : State) (props : Props) :
  store s1 = store s -> target s1 props = target s props.
Proof. intros Hs. unfold target, getBaseDir. rewrite Hs. reflexivity. Qed.

(** The state a settled download leaves, read through the store. *)
Lemma settle_fetch_done_path (w : World) (i : nat) (props : Props) (now : string) :
  tasks w !! i = Some (TFetch props) ->
  let w1 := (step w (ISettle i true now)).1 in
  (getImageOfflinePath (state w1) props).1 = Some (target (state w) props)
  /\ ((_getEntryProps props).1 <> "__proto__"%string ->
      unlinkPath (state w1) (_getEntryProps props).1 = target (state w) props)
  /\ store (state w1) = store (state w)
  /\ handlers (state w1) = handlers (state w).
Proof.
  intros Ht w1. subst w1. rewrite (settle_fetch_done w i props now Ht). cbn [fst state].
  pose proof (addEntry_lookup (state w) (_getEntryProps props).1 (filename props) now)
    as (Hnew & _ & Hstore & Hhandlers).
  pose proof (addEntry_value (state w) (_getEntryProps props).1 (filename props) now)
    as Hval.
  pose proof (addEntry_own (state w) (_getEntryProps props).1 (filename props) now)
    as Hown.
  destruct (_addEntry (state w) (_getEntryProps props).1 (filename props) now)
    as [s1 entry]. cbn [fst snd] in *.
  assert (Hbase : getBaseDir s1 = getBaseDir (state w))
    by (unfold getBaseDir; rewrite Hstore; reflexivity).
  split; [| split; [| split; assumption]].
  - apply getImageOfflinePath_Some. exists entry. unfold _getEntry.
    rewrite Hnew, Hval, Hbase. repeat split; reflexivity.
  - intros Hne. unfold unlinkPath. rewrite (Hown (or_introl Hne)), Hval. reflexivity.
Qed.


Lemma resume_calls (s : State) (u : string) (e : Entry) :
  Forall (fun h => throws h = false) (default [] (handlers s !! u)) ->
  calls (_updateOfflineStore_resume s u e true)
  = map (callOf u e) (default [] (handlers s !! u)).
Proof.
  intros Hquiet. unfold _updateOfflineStore_resume, _notify, handlers_get.
  destruct (handlers s !! u) as [hs |]; cbn [default] in *.
  - destruct (notify_each_all s u (localPath e) hs Hquiet) as [Hc Hfine].
    destruct (notify_each s u (localPath e) hs) as [t fine]. cbn [fst snd] in *.
    subst fine. exact Hc.
  - unfold inherited. destruct (decide (u = "__proto__"%string)); [reflexivity |].
    destruct (Object_prototype u) as [arity |]; [| reflexivity].
    destruct (negb (0 <? arity)%nat); cbn [app]; rewrite ?calls_log; reflexivity.
Qed.

(** X5: after a request that is not rejected, for a key that is not
    validly cached, when the fetch succeeds and the write to AsyncStorage
    succeeds, every handler subscribed for the uri is called exactly once,
    in the order of subscription, with the uri and the file that was
    written, provided none of them throws; the dictionary has been written
    once, and no operation of the request is left pending. *)
Theorem request_download_notifies
    (w : World) (i : Input) (props : Props) (now now' : string) :
  requestProps i = Some props ->
  accepted (state w) i = true ->
  ~ validlyCached (state w) props ->
  let hs := default [] (handlers (state (step w i).1) !! uri (source props)) in
  Forall (fun h => throws h = false) hs ->
  let j := length (tasks w) in
  let r := run w [i; ISettle j true now; ISettle j true now'] in
  calls r.2
  = map (fun h => (hid h, uri (source props), target (state w) props)) hs
  /\ writes r.2 = [(storageKey (state r.1), JSON_stringify (entries (state r.1)))]
  /\ (getImageOfflinePath (state r.1) props).1 = Some (target (state w) props)
  /\ tasks r.1 = tasks w.
Proof.
  intros Hreq Hacc Hmiss hs Hquiet j r. subst r j hs. cbn [run].
  destruct (step_request_miss w i props Hreq Hacc Hmiss) as (_ & Ht & _ & Hs & _).
  pose proof (step_request_miss_calls w i props Hreq Hacc Hmiss) as Hc1.
  destruct (step_request_quiet w i props Hreq) as (_ & Hw1 & _).
  destruct (step w i) as [w1 t1]. cbn [fst snd] in *.
  assert (Hj : tasks w1 !! length (tasks w) = Some (TFetch props))
    by (rewrite Ht; apply lookup_last).
  destruct (settle_fetch_done_path w1 _ props now Hj) as (Hpath & _ & _ & Hh).
  cbv zeta in Hpath, Hh.
  rewrite (settle_fetch_done w1 _ props now Hj) in *. cbn [fst snd state] in *.
  pose proof (addEntry_value (state w1) (_getEntryProps props).1 (filename props) now)
    as Hval.
  set (added := _addEntry (state w1) (_getEntryProps props).1 (filename props) now) in *.
  rewrite Ht, delete_last.
  rewrite (settle_write
             (mkWorld added.1 (tasks w ++ [TSetItem (uri (source props)) added.2]))
             (length (tasks w)) _ _ true now' (lookup_last _ _)).
  cbn [fst snd state tasks]. rewrite delete_last.
  assert (Htarget : target (state w1) props = target (state w) props)
    by (apply target_store; exact Hs).
  assert (Hlocal : localPath added.2 = target (state w) props)
    by (rewrite Hval, <- Htarget; reflexivity).
  rewrite <- Hh in Hquiet.
  split; [| split; [| split]].
  - rewrite !calls_app, Hc1, (resume_calls _ _ _ Hquiet), Hh.
    unfold callOf. rewrite Hlocal.
    change (calls []) with (@nil (nat * string * string)).
    rewrite app_nil_r. reflexivity.
  - rewrite !writes_app, Hw1.
    destruct (offStorage_facts _ (offStorage_resume added.1 (uri (source props))
                                    added.2 true)) as [-> _].
    reflexivity.
  - rewrite Hpath, Htarget. reflexivity.
  - reflexivity.
Qed.

(** X20: a download that has succeeded records under its key an entry with
    the base directory of the moment and the file name of the descriptor.
    Its [createdOn] is the time of the download when the dictionary reads
    [undefined] under the key, as it does at a key that names nothing
    inherited and has no entry; it is the [createdOn] of the entry found
    there when there is one; and it is absent when the key names a method
    of [Object.prototype].  The entries of other keys are untouched, and
    whatever happens later on the event loop an entry of the dictionary
    keeps its [createdOn]. *)
Theorem download_records_createdOn
    (w : World) (i : nat) (props : Props) (now : string) :
  tasks w !! i = Some (TFetch props) ->
  let k := (_getEntryProps props).1 in
  let w1 := (step w (ISettle i true now)).1 in
  let recorded c := mkEntry c (getBaseDir (state w)) (filename props) in
  (entries_get (state w) k = Undefined ->
   entries_get (state w1) k = Item (recorded (Some now)))
  /\ (plainKey k -> entries (state w) !! k = None ->
      entries (state w1) !! k = Some (recorded (Some now)))
  /\ (forall e, entries_get (state w) k = Item e ->
        entries_get (state w1) k = Item (recorded (createdOn e)))
  /\ (forall n, entries_get (state w) k = Method n ->
        entries (state w1) !! k = Some (recorded None))
  /\ (forall k', k' <> k -> entries (state w1) !! k' = entries (state w) !! k')
  /\ (forall inputs k' e, entries (state w) !! k' = Some e ->
        exists e', entries (state (run w inputs).1) !! k' = Some e'
                   /\ createdOn e' = createdOn e).
Proof.
  intros Ht k w1 recorded. subst w1.
  rewrite (settle_fetch_done w i props now Ht). cbn [fst state]. fold k.
  pose proof (addEntry_lookup (state w) k (filename props) now) as (Hnew & Hother & _).
  pose proof (addEntry_value (state w) k (filename props) now) as Hval.
  pose proof (addEntry_own (state w) k (filename props) now) as Hown.
  split; [| split; [| split; [| split; [| split]]]].
  - intros Hk. rewrite Hnew, Hval, Hk. reflexivity.
  - intros Hplain Hk. pose proof Hplain as [[Hproto _] _].
    rewrite (Hown (or_introl Hproto)), Hval, (entries_get_plain _ _ Hplain), Hk.
    reflexivity.
  - intros e Hk. rewrite Hnew, Hval, Hk. reflexivity.
  - intros n Hk.
    assert (Hproto : k <> "__proto__"%string).
    { intros Heq. rewrite Heq in Hk. unfold entries_get, inherited in Hk.
      destruct (entries (state w) !! "__proto__"%string); [discriminate |].
      destruct (entriesProto (state w)); cbn in Hk; discriminate. }
    rewrite (Hown (or_introl Hproto)), Hval, Hk. reflexivity.
  - exact Hother.
  - intros inputs k' e. apply run_keeps_createdOn.
Qed.

End RoundTrip.


Lemma request_download_notifies_witness :
  calls (@run Sample.platform SampleLoop.idle
           [ISubscribe SampleNotify.second Sample.png;
            ISettle 0 true "5000"; ISettle 0 true "6000"]).2
  = [(2%nat, "https://example.com/a.png"%string,
      "/cache/RN_Default_ImageStore/sha1:https://example.com/a.png.png"%string)].
Proof.
  destruct (@request_download_notifies Sample.platform SampleLoop.idle
              (ISubscribe SampleNotify.second Sample.png) Sample.png
              "5000" "6000") as (Hcalls & _).
  - reflexivity.
  - reflexivity.
  - intros (e & He & _). vm_compute in He. discriminate.
  - vm_compute. repeat constructor.
  - exact Hcalls.
Defined.

Lemma download_records_createdOn_witness :
  entries (state (@step Sample.platform SampleDownload.pending
                    (ISettle 0 true "5000")).1) !! SampleDownload.key
  = Some (mkEntry (Some "5000"%string) "/cache/RN_Default_ImageStore"
            "sha1:https://example.com/a.png.png")
  /\ @entries_get Sample.platform
       (state (@step Sample.platform SampleDownload.reloading
                 (ISettle 0 true "5000")).1) SampleDownload.key
     = Item (mkEntry (createdOn SampleCached.entry) "/cache/RN_Default_ImageStore"
               "sha1:https://example.com/a.png.png")
  /\ entries (state (@step Sample.platform SampleInherited.pending
                       (ISettle 0 true "5000")).1) !! "constructor"%string
     = Some (mkEntry None "/cache/RN_Default_ImageStore" "constructor.png").
Proof.
  split; [| split].
  - destruct (@download_records_createdOn Sample.platform SampleDownload.pending
                0%nat Sample.png "5000") as (_ & Hfirst & _); [reflexivity |].
    apply Hfirst; [| reflexivity].
    repeat split; (discriminate || reflexivity).
  - destruct (@download_records_createdOn Sample.platform SampleDownload.reloading
                0%nat Sample.png "5000") as (_ & _ & Hagain & _); [reflexivity |].
    apply (Hagain SampleCached.entry). reflexivity.
  - destruct (@download_records_createdOn Sample.platform SampleInherited.pending
                0%nat SampleInherited.props "5000") as (_ & _ & _ & Hmethod & _);
      [reflexivity |].
    apply (Hmethod 1%nat). reflexivity.
Defined.
(** ** Subscriptions *)

Section Subscriptions.
Context `{Platform}.

Lemma omap_none {A : Type} (P : Effect -> Prop) (f : Effect -> option A)
    (t : list Effect) :
  (forall e, P e -> f e = None) -> Forall P t -> omap f t = [].
Proof.
  intros Hf. induction 1 as [| e t He _ IH]; [reflexivity |].
  cbn. rewrite (Hf e He). exact IH.
Qed.

Lemma notifying_log (s : State) (args : list string) : Forall notifying (log s args).
Proof. unfold log. destruct (debugMode (store s)); repeat constructor. Qed.

Lemma notifying_each (s : State) (u p : string) (hs : list Handler) :
  Forall notifying (notify_each s u p hs).1.
Proof.
  induction hs as [| h hs IH]; [constructor |].
  cbn [notify_each]. destruct (throws h).
  - cbn [fst]. rewrite Forall_app. split; [apply notifying_log |].
    repeat constructor.
  - destruct (notify_each s u p hs) as [t fine]. cbn [fst] in *.
    rewrite !Forall_app. repeat split; [apply notifying_log | | exact IH].
    repeat constructor.
Qed.

Lemma notifying_facts (t : list Effect) :
  Forall notifying t -> fetched t = [] /\ uncaught t = [].
Proof.
  intros Ht. split; apply (omap_none notifying); try exact Ht;
    intros e He; destruct e; try contradiction; reflexivity.
Qed.

Lemma notify_each_throws (s : State) (u p : string) (hs : list Handler) :
  Exists (fun h => throws h = true) hs -> (notify_each s u p hs).2 = false.
Proof.
  induction hs as [| h hs IH]; intros Hex; [inversion Hex |].
  cbn [notify_each]. destruct (throws h) eqn:Hh; [reflexivity |].
  apply Exists_cons in Hex as [Hex | Hex]; [congruence |].
  specialize (IH Hex). destruct (notify_each s u p hs). exact IH.
Qed.

Lemma fetched_downloadImage (s : State) (props : Props) :
  fetched (_downloadImage s props) = [(target s props, uri (source props))].
Proof. reflexivity. Qed.

(** Under a name [Object.prototype] knows nothing of, a registration never
    throws. *)
Lemma accepted_plain (s : State) (i : Input) (props : Props) :
  requestProps i = Some props ->
  plainName (uri (source props)) ->
  accepted s i = true.
Proof.
  intros Hreq Hplain. destruct i as [h p | p | |]; try discriminate;
    injection Hreq as ->; cbn [accepted]; [| reflexivity].
  destruct (handlers s !! uri (source props)) as [hs |] eqn:Hu.
  - rewrite (subscribe_register_own s h props hs Hu). reflexivity.
  - rewrite (subscribe_register_fresh s h props Hu Hplain). reflexivity.
Qed.

Lemma notify_calls (s : State) (u : string) (e : Entry) :
  plainName u \/ is_Some (handlers s !! u) ->
  Forall (fun h => throws h = false) (default [] (handlers s !! u)) ->
  calls (_notify s u e).1 = map (callOf u e) (default [] (handlers s !! u))
  /\ (_notify s u e).2 = true
  /\ fetched (_notify s u e).1 = [].
Proof.
  intros Hu Hquiet. unfold _notify.
  destruct (handlers s !! u) as [hs |] eqn:Hown.
  - rewrite (handlers_get_own s u hs Hown). cbn [default] in *.
    destruct (notify_each_all s u (localPath e) hs Hquiet).
    destruct (notifying_facts _ (notifying_each s u (localPath e) hs)).
    auto.
  - destruct Hu as [Hplain | [? ?]]; [| discriminate].
    rewrite (handlers_get_fresh s u Hown Hplain). repeat split; reflexivity.
Qed.

Lemma getImage_hit (s : State) (props : Props) (e : Entry) :
  _getEntry s props = Item e ->
  basePath e = getBaseDir s ->
  plainName (uri (source props)) \/ is_Some (handlers s !! uri (source props)) ->
  Forall (fun h => throws h = false) (default [] (handlers s !! uri (source props))) ->
  calls (_getImage s props).1
  = map (callOf (uri (source props)) e) (default [] (handlers s !! uri (source props)))
  /\ fetched (_getImage s props).1
     = (if reloadImage props then [(target s props, uri (source props))] else [])
  /\ (_getImage s props).2 = reloadImage props.
Proof.
  intros He Hb Hu Hquiet. unfold _getImage. rewrite He.
  destruct (decide (basePath e = getBaseDir s)); [| contradiction].
  destruct (notify_calls s (uri (source props)) e Hu Hquiet) as (Hc & Hfine & Hf).
  destruct (_notify s (uri (source props)) e) as [t fine]. cbn [fst snd] in *.
  subst fine. destruct (reloadImage props); cbn [fst snd].
  - rewrite !calls_app, !fetched_app, !calls_log, !fetched_log, Hc, Hf.
    cbn. rewrite app_nil_r. auto.
  - rewrite calls_app, fetched_app, calls_log, fetched_log, Hc, Hf. auto.
Qed.

Lemma getImage_hit_throws (s : State) (props : Props) (e : Entry) :
  _getEntry s props = Item e ->
  basePath e = getBaseDir s ->
  Exists (fun h => throws h = true) (default [] (handlers s !! uri (source props))) ->
  fetched (_getImage s props).1 = []
  /\ uncaught (_getImage s props).1 = ["handler"%string]
  /\ (_getImage s props).2 = false.
Proof.
  intros He Hb Hex. unfold _getImage. rewrite He.
  destruct (decide (basePath e = getBaseDir s)); [| contradiction].
  unfold _notify.
  destruct (handlers s !! uri (source props)) as [hs |] eqn:Hown;
    [| inversion Hex]. cbn [default] in Hex.
  rewrite (handlers_get_own s _ hs Hown).
  pose proof (notify_each_throws s (uri (source props)) (localPath e) hs Hex) as Hfine.
  destruct (notifying_facts _ (notifying_each s (uri (source props)) (localPath e) hs))
    as [Hf Hu].
  destruct (notifying_facts _ (notifying_log s
              ["Image exist offline"%string; uri (source props)])) as [Hlf Hlu].
  destruct (notify_each s (uri (source props)) (localPath e) hs) as [t fine].
  cbn [fst snd] in *. subst fine. cbn [fst snd].
  unfold fetched, uncaught in *. rewrite !omap_app, Hf, Hu, Hlf, Hlu. auto.
Qed.

Lemma resume_calls_none (s : State) (u : string) (e : Entry) (ok : bool) :
  handlers s !! u = None -> calls (_updateOfflineStore_resume s u e ok) = [].
Proof.
  intros Hu. destruct ok; [| apply calls_resume_failed].
  rewrite resume_calls; rewrite Hu; [reflexivity | constructor].
Qed.

(** X6: [unsubscribe] removes every handler subscribed for the uri, whoever
    subscribed it: a write that settles afterwards for that uri calls no
    handler, and the handlers of other uris, the dictionary and the pending
    operations are untouched.  A later subscription for the uri starts a
    new list when [Object.prototype] holds nothing under the uri, and
    otherwise throws at its registration and changes nothing. *)
Theorem unsubscribe_drops_every_handler (w : World) (src : Source) :
  let w1 := (step w (IUnsubscribe src)).1 in
  handlers (state w1) !! uri src = None
  /\ (forall j e ok now,
        tasks w1 !! j = Some (TSetItem (uri src) e) ->
        calls (step w1 (ISettle j ok now)).2 = [])
  /\ (forall h props,
        uri (source props) = uri src ->
        plainName (uri src) ->
        handlers (state (step w1 (ISubscribe h props)).1) !! uri src = Some [h])
  /\ (forall h props,
        uri (source props) = uri src ->
        ~ plainName (uri src) ->
        (step w1 (ISubscribe h props)).1 = w1
        /\ uncaught (step w1 (ISubscribe h props)).2
           = ["TypeError: push is not a function"%string])
  /\ (forall u, u <> uri src -> handlers (state w1) !! u = handlers (state w) !! u)
  /\ entries (state w1) = entries (state w)
  /\ tasks w1 = tasks w.
Proof.
  intros w1.
  assert (Hw1 : w1 = mkWorld (unsubscribe (state w) src) (tasks w)) by reflexivity.
  clearbody w1. subst w1.
  assert (Hgone : handlers (unsubscribe (state w) src) !! uri src = None)
    by apply lookup_delete_eq.
  split; [exact Hgone |].
  split; [| split; [| split; [| split; [| split; reflexivity]]]].
  - intros j e ok now Hj.
    rewrite (settle_write _ j (uri src) e ok now Hj).
    cbn [snd state]. apply resume_calls_none, Hgone.
  - intros h props Hu Hplain.
    assert (Hacc : accepted (unsubscribe (state w) src) (ISubscribe h props) = true)
      by (apply (accepted_plain _ (ISubscribe h props) props eq_refl); rewrite Hu;
          exact Hplain).
    destruct (step_request_state
                (mkWorld (unsubscribe (state w) src) (tasks w))
                (ISubscribe h props) props eq_refl Hacc) as (_ & _ & _ & ->).
    cbn [state]. rewrite <- Hu, register_lookup, Hu, Hgone; [reflexivity |].
    cbn [accepted] in Hacc.
    destruct (subscribe_register (unsubscribe (state w) src) h props);
      [eauto | discriminate].
  - intros h props Hu Hplain.
    assert (Hacc : accepted (unsubscribe (state w) src) (ISubscribe h props) = false).
    { cbn [accepted]. unfold subscribe_register, handlers_get.
      rewrite Hu, Hgone. unfold inherited.
      destruct (decide (uri src = "__proto__"%string)) as [Hp | Hp]; [reflexivity |].
      destruct (Object_prototype (uri src)) eqn:Hm; [reflexivity |].
      exfalso. apply Hplain. split; assumption. }
    rewrite (step_rejected (mkWorld (unsubscribe (state w) src) (tasks w))
               (ISubscribe h props) Hacc).
    split; reflexivity.
  - intros u Hne. cbn. apply lookup_delete_ne. congruence.
Qed.

(** X7: a [subscribe] or [prefetch] for a validly cached descriptor, under
    a uri [Object.prototype] holds nothing under, calls every handler
    subscribed for the uri, the new one included, in the order of
    subscription and with the cached path, provided none throws; it starts
    a download only when [reloadImage] is set, and leaves the dictionary as
    it is. *)
Theorem request_cache_hit
    (w : World) (i : Input) (props : Props) (e : Entry) :
  requestProps i = Some props ->
  plainName (uri (source props)) ->
  _getEntry (state w) props = Item e ->
  basePath e = getBaseDir (state w) ->
  let r := step w i in
  let hs := default [] (handlers (state r.1) !! uri (source props)) in
  Forall (fun h => throws h = false) hs ->
  calls r.2 = map (callOf (uri (source props)) e) hs
  /\ fetched r.2
     = (if reloadImage props
        then [(target (state w) props, uri (source props))] else [])
  /\ tasks r.1 = tasks w ++ (if reloadImage props then [TFetch props] else [])
  /\ entries (state r.1) = entries (state w)
  /\ (forall h, i = ISubscribe h props ->
        hs = default [] (handlers (state w) !! uri (source props)) ++ [h]).
Proof.
  intros Hreq Hplain He Hb r hs Hquiet. subst hs r.
  pose proof (accepted_plain (state w) i props Hreq Hplain) as Hacc.
  destruct (step_request_state w i props Hreq Hacc) as (Hsame & Heff & Htasks & Hstate).
  assert (He1 : _getEntry (state (step w i).1) props = Item e)
    by (unfold _getEntry; rewrite (entries_get_frame _ _ _ Hsame); exact He).
  assert (Hb1 : basePath e = getBaseDir (state (step w i).1))
    by (rewrite (getBaseDir_frame _ _ Hsame); exact Hb).
  destruct (getImage_hit _ props e He1 Hb1 (or_introl Hplain) Hquiet)
    as (Hc & Hf & Hstarted).
  rewrite Heff, Htasks, Hc, Hf, Hstarted, (target_frame _ _ props Hsame).
  destruct Hsame as (Hent & _).
  split; [reflexivity |]. split; [reflexivity |].
  split; [destruct (reloadImage props); reflexivity |].
  split; [exact Hent |].
  intros h ->. rewrite Hstate, register_lookup; [reflexivity |].
  cbn [accepted] in Hacc.
  destruct (subscribe_register (state w) h props); [eauto | discriminate].
Qed.

(** X8: when a handler subscribed for the uri of a validly cached
    descriptor throws, the request ends with that exception: no download is
    started, not even when [reloadImage] is set. *)
Theorem throwing_handler_blocks_reload
    (w : World) (i : Input) (props : Props) (e : Entry) :
  requestProps i = Some props ->
  _getEntry (state w) props = Item e ->
  basePath e = getBaseDir (state w) ->
  let r := step w i in
  Exists (fun h => throws h = true)
         (default [] (handlers (state r.1) !! uri (source props))) ->
  fetched r.2 = [] /\ uncaught r.2 = ["handler"%string] /\ tasks r.1 = tasks w.
Proof.
  intros Hreq He Hb r Hex. subst r.
  assert (Hacc : accepted (state w) i = true).
  { destruct (accepted (state w) i) eqn:Hacc; [reflexivity |]. exfalso.
    rewrite (step_rejected w i Hacc) in Hex. cbn [fst] in Hex.
    destruct i as [h p | p | |]; try discriminate. injection Hreq as ->.
    cbn [accepted] in Hacc.
    destruct (handlers (state w) !! uri (source props)) as [hs |] eqn:Hown;
      [| inversion Hex].
    rewrite (subscribe_register_own _ h props hs Hown) in Hacc. discriminate. }
  destruct (step_request_state w i props Hreq Hacc) as (Hsame & Heff & Htasks & _).
  assert (He1 : _getEntry (state (step w i).1) props = Item e)
    by (unfold _getEntry; rewrite (entries_get_frame _ _ _ Hsame); exact He).
  assert (Hb1 : basePath e = getBaseDir (state (step w i).1))
    by (rewrite (getBaseDir_frame _ _ Hsame); exact Hb).
  destruct (getImage_hit_throws _ props e He1 Hb1 Hex) as (Hf & Hu & Hstarted).
  rewrite Heff, Htasks, Hf, Hu, Hstarted. cbn [started]. rewrite app_nil_r. auto.
Qed.

End Subscriptions.

Lemma unsubscribe_drops_every_handler_witness :
  calls (@step Sample.platform
           (@step Sample.platform SampleRequests.writing
              (IUnsubscribe (source Sample.png))).1
           (ISettle 0 true "6000")).2 = []
  /\ calls (@step Sample.platform SampleRequests.writing (ISettle 0 true "6000")).2
     <> []
  /\ handlers (state (@step Sample.platform
                        (@step Sample.platform SampleRequests.writing
                           (IUnsubscribe (source Sample.png))).1
                        (ISubscribe SampleNotify.second Sample.png)).1)
       !! SampleNotify.address = Some [SampleNotify.second]
  /\ uncaught (@step Sample.platform
                 (@step Sample.platform SampleRequests.writing
                    (IUnsubscribe (source SampleInherited.named))).1
                 (ISubscribe SampleNotify.second SampleInherited.named)).2
     = ["TypeError: push is not a function"%string].
Proof.
  destruct (@unsubscribe_drops_every_handler Sample.platform
              SampleRequests.writing (source Sample.png))
    as (_ & Hsilent & Hagain & _).
  destruct (@unsubscribe_drops_every_handler Sample.platform
              SampleRequests.writing (source SampleInherited.named))
    as (_ & _ & _ & Hthrows & _).
  split; [| split; [| split]].
  - apply (Hsilent 0%nat SampleNotify.entry true "6000"%string). reflexivity.
  - vm_compute. discriminate.
  - apply (Hagain SampleNotify.second Sample.png); [reflexivity |].
    split; [discriminate | reflexivity].
  - apply (Hthrows SampleNotify.second SampleInherited.named); [reflexivity |].
    intros [_ Hnone]. vm_compute in Hnone. discriminate.
Defined.

Lemma request_cache_hit_witness :
  calls (@step Sample.platform SampleRequests.quiet
           (ISubscribe SampleNotify.second Sample.png)).2
  = [(2%nat, "https://example.com/a.png"%string,
      "/cache/RN_Default_ImageStore/sha1:https://example.com/a.png.png"%string)]
  /\ fetched (@step Sample.platform SampleRequests.quiet
                (ISubscribe SampleNotify.second Sample.png)).2 = []
  /\ fetched (@step Sample.platform SampleRequests.quiet
                (ISubscribe SampleNotify.second SampleRequests.reload)).2
     = [("/cache/RN_Default_ImageStore/sha1:https://example.com/a.png.png"%string,
         "https://example.com/a.png"%string)].
Proof.
  destruct (@request_cache_hit Sample.platform SampleRequests.quiet
              (ISubscribe SampleNotify.second Sample.png) Sample.png
              SampleCached.entry) as (Hcalls & Hnone & _);
    [reflexivity | split; [discriminate | reflexivity]
    | vm_compute; reflexivity | reflexivity
    | vm_compute; repeat constructor |].
  destruct (@request_cache_hit Sample.platform SampleRequests.quiet
              (ISubscribe SampleNotify.second SampleRequests.reload)
              SampleRequests.reload SampleCached.entry) as (_ & Hreload & _);
    [reflexivity | split; [discriminate | reflexivity]
    | vm_compute; reflexivity | reflexivity
    | vm_compute; repeat constructor |].
  split; [exact Hcalls |]. split; [exact Hnone | exact Hreload].
Defined.

Lemma throwing_handler_blocks_reload_witness :
  fetched (@step Sample.platform SampleRequests.noisy
             (IPrefetch SampleRequests.reload)).2 = []
  /\ uncaught (@step Sample.platform SampleRequests.noisy
                 (IPrefetch SampleRequests.reload)).2 = ["handler"%string]
  /\ tasks (@step Sample.platform SampleRequests.noisy
              (IPrefetch SampleRequests.reload)).1 = [].
Proof.
  apply (@throwing_handler_blocks_reload Sample.platform SampleRequests.noisy
           (IPrefetch SampleRequests.reload) SampleRequests.reload
           SampleNotify.entry).
  - reflexivity.
  - vm_compute. reflexivity.
  - reflexivity.
  - vm_compute. left. reflexivity.
Defined.

(** ** An invariant of the event loop *)

Section Placement.
Context `{Platform}.

Lemma wellPlaced_frame (s s1 : State) :
  entries s1 = entries s -> store s1 = store s -> wellPlaced s -> wellPlaced s1.
Proof.
  intros He Hs Hwp k e Hk. unfold getBaseDir. rewrite Hs.
  rewrite He in Hk. exact (Hwp k e Hk).
Qed.

Lemma step_wellPlaced (w : World) (i : Input) :
  wellPlaced (state w) -> wellPlaced (state (step w i).1).
Proof.
  intros Hwp. destruct i as [h p | p | src | j ok now].
  - destruct (step_request_quiet w (ISubscribe h p) p eq_refl) as ((He & Hs & _) & _).
    exact (wellPlaced_frame _ _ He Hs Hwp).
  - destruct (step_request_quiet w (IPrefetch p) p eq_refl) as ((He & Hs & _) & _).
    exact (wellPlaced_frame _ _ He Hs Hwp).
  - exact Hwp.
  - destruct (tasks w !! j) as [[props | u e] |] eqn:Hj;
      [destruct ok | |];
      [| rewrite (settle_fetch_failed w j props now Hj); auto
       | rewrite (settle_write w j u e ok now Hj); auto
       | cbn [step]; unfold settle; rewrite Hj; auto].
    rewrite (settle_fetch_done w j props now Hj). cbn [fst state].
    pose proof (addEntry_lookup (state w) (_getEntryProps props).1 (filename props) now)
      as (Hnew & Hother & Hstore & _).
    pose proof (addEntry_value (state w) (_getEntryProps props).1 (filename props) now)
      as Hval.
    destruct (_addEntry (state w) (_getEntryProps props).1 (filename props) now)
      as [s1 entry]. cbn [fst snd] in *.
    intros k e Hk. unfold getBaseDir. rewrite Hstore.
    destruct (decide (k = (_getEntryProps props).1)) as [-> | Hne].
    + rewrite (entries_get_own _ _ _ Hk) in Hnew. injection Hnew as ->.
      rewrite Hval. cbn. split; [reflexivity |]. exists props. auto.
    + rewrite (Hother k Hne) in Hk. exact (Hwp k e Hk).
Qed.

Lemma run_wellPlaced (inputs : list Input) (w : World) :
  wellPlaced (state w) -> wellPlaced (state (run w inputs).1).
Proof.
  revert w. induction inputs as [| i rest IH]; intros w Hwp; [exact Hwp |].
  cbn [run]. pose proof (step_wellPlaced w i Hwp) as Hwp1.
  destruct (step w i) as [w1 t1]. cbn [fst] in *.
  specialize (IH w1 Hwp1).
  destruct (run w1 rest) as [w2 t2]. exact IH.
Qed.

Lemma wellPlaced_distinct_files (s : State) (k1 k2 : string) (e1 e2 : Entry) :
  wellPlaced s ->
  entries s !! k1 = Some e1 -> entries s !! k2 = Some e2 ->
  localPath e1 = localPath e2 -> k1 = k2.
Proof.
  intros Hwp H1 H2 Hpath.
  destruct (Hwp k1 e1 H1) as (Hb1 & p1 & -> & Hf1).
  destruct (Hwp k2 e2 H2) as (Hb2 & p2 & -> & Hf2).
  unfold localPath in Hpath. rewrite Hb1, Hb2, Hf1, Hf2 in Hpath.
  apply append_cancel_l, (append_cancel_l "/") in Hpath.
  apply filename_inj in Hpath. congruence.
Qed.

(** X9: along the event loop (requests, unsubscriptions and settled
    operations, in any order) the configuration of the store never changes
    and every entry of the dictionary stays under the current base
    directory in the file named after its key.  Hence, for a key under
    which the dictionary inherits nothing, [isImageExistOffline] holds
    exactly when [getImageOfflinePath] gives a path, and two different keys
    never point at the same file.  For a key without entry that names
    something the dictionary inherits from [Object.prototype],
    [isImageExistOffline] holds although there is no path. *)
Theorem event_loop_keeps_entries_placed (w : World) (inputs : list Input) :
  wellPlaced (state w) ->
  let s := state (run w inputs).1 in
  store s = store (state w)
  /\ wellPlaced s
  /\ (forall props,
        plainKey (_getEntryProps props).1 ->
        isImageExistOffline s (_getEntryProps props).1 = true
        <-> is_Some (getImageOfflinePath s props).1)
  /\ (forall props,
        entries s !! (_getEntryProps props).1 = None ->
        entriesProto s = None ->
        ~ plainName (_getEntryProps props).1 ->
        isImageExistOffline s (_getEntryProps props).1 = true
        /\ (getImageOfflinePath s props).1 = None)
  /\ (forall k1 k2 e1 e2,
        entries s !! k1 = Some e1 -> entries s !! k2 = Some e2 ->
        localPath e1 = localPath e2 -> k1 = k2).
Proof.
  intros Hwp s. subst s. pose proof (run_wellPlaced inputs w Hwp) as Hwp'.
  split; [apply run_store |]. split; [exact Hwp' |].
  split; [| split].
  - intros props Hplain. unfold isImageExistOffline, getImageOfflinePath, _getEntry.
    rewrite (entries_get_plain _ _ Hplain).
    destruct (entries (state (run w inputs).1) !! (_getEntryProps props).1)
      as [e |] eqn:He.
    + destruct (Hwp' _ e He) as [Hb _].
      destruct (decide (basePath e = getBaseDir (state (run w inputs).1)));
        [| contradiction].
      cbn. split; eauto.
    + cbn. split; [discriminate | intros [? ?]; discriminate].
  - intros props Hnone Hproto Hnot.
    unfold isImageExistOffline, getImageOfflinePath, _getEntry, entries_get.
    rewrite Hnone, Hproto. unfold inherited.
    destruct (decide ((_getEntryProps props).1 = "__proto__"%string)) as [Hp | Hp];
      [split; reflexivity |].
    destruct (Object_prototype (_getEntryProps props).1) eqn:Hm;
      [split; reflexivity |].
    exfalso. apply Hnot. split; assumption.
  - intros k1 k2 e1 e2. apply wellPlaced_distinct_files, Hwp'.
Qed.

End Placement.

Lemma event_loop_keeps_entries_placed_witness :
  is_Some (@getImageOfflinePath Sample.platform
             (state (@run Sample.platform SampleLoop.idle
                       [ISubscribe SampleNotify.second Sample.png;
                        ISettle 0 true "5000"; IPrefetch Sample.logo]).1)
             Sample.png).1
  /\ ~ is_Some (@getImageOfflinePath Sample.platform
                  (state (@run Sample.platform SampleLoop.idle
                            [ISubscribe SampleNotify.second Sample.png;
                             ISettle 0 true "5000"; IPrefetch Sample.logo]).1)
                  Sample.logo).1
  /\ @isImageExistOffline Sample.platform
       (state (@run Sample.platform SampleLoop.idle
                 [ISubscribe SampleNotify.second Sample.png;
                  ISettle 0 true "5000"; IPrefetch Sample.logo]).1)
       "constructor" = true.
Proof.
  destruct (@event_loop_keeps_entries_placed Sample.platform SampleLoop.idle
              [ISubscribe SampleNotify.second Sample.png;
               ISettle 0 true "5000"; IPrefetch Sample.logo])
    as (_ & _ & Hiff & Hinherited & _).
  - intros k e Hk. cbn in Hk. rewrite lookup_empty in Hk. discriminate.
  - split; [| split].
    + apply (Hiff Sample.png); [| vm_compute; reflexivity].
      repeat split; (discriminate || reflexivity).
    + intros Hsome. apply (Hiff Sample.logo) in Hsome;
        [vm_compute in Hsome; discriminate |].
      repeat split; (discriminate || reflexivity).
    + apply (Hinherited SampleInherited.props);
        [vm_compute; reflexivity | vm_compute; reflexivity |].
      intros [_ Hnone]. vm_compute in Hnone. discriminate.
Defined.

(** ** More on the expiry sweep *)

Section SweepOutcome.
Context `{Platform}.

Lemma removeExpired_frame
    (s : State) (now : Z) (cb : bool) (ok : string -> bool) (order : list string) :
  store (_removeExpiredImages s now cb ok order).1 = store s
  /\ handlers (_removeExpiredImages s now cb ok order).1 = handlers s.
Proof.
  destruct (decide (_getExpiredImages s now = [])) as [Hnil | Hne].
  - rewrite (removeExpired_none s now cb ok order Hnil). auto.
  - rewrite (removeExpired_some s now cb ok order Hne). cbn [fst].
    destruct (unlinks_settled_frame ok order s) as (Hs & Hh & _). auto.
Qed.

Lemma removeExpired_lookup
    (s : State) (now : Z) (cb : bool) (ok : string -> bool) (order : list string)
    (k : string) :
  order ≡ₚ _getExpiredImages s now ->
  (k ∈ _getExpiredImages s now -> ok k = true ->
   entries (_removeExpiredImages s now cb ok order).1 !! k = None)
  /\ (k ∉ _getExpiredImages s now \/ ok k = false ->
      entries (_removeExpiredImages s now cb ok order).1 !! k = entries s !! k).
Proof.
  intros Hperm.
  destruct (decide (_getExpiredImages s now = [])) as [Hnil | Hne].
  - rewrite (removeExpired_none s now cb ok order Hnil). cbn [fst].
    rewrite Hnil. split; [| reflexivity].
    intros Hin. apply elem_of_nil in Hin. contradiction.
  - rewrite (removeExpired_some s now cb ok order Hne). cbn [fst]. split.
    + intros Hin Hok. apply unlinks_settled_removed; [| exact Hok].
      rewrite Hperm. exact Hin.
    + intros Hk. apply unlinks_settled_kept. rewrite Hperm. exact Hk.
Qed.

Lemma isExpired_store (s s1 : State) (now : Z) (e : Entry) :
  store s1 = store s -> isExpired s1 now e = isExpired s now e.
Proof. intros Hs. unfold isExpired. rewrite Hs. reflexivity. Qed.

(** X10: after a sweep the keys that are still expired are exactly the keys
    whose file could not be deleted; when every deletion succeeds no
    expired entry is left. *)
Theorem sweep_leaves_failed_only
    (s : State) (now : Z) (cb : bool) (ok : string -> bool) (order : list string) :
  order ≡ₚ _getExpiredImages s now ->
  let r := _removeExpiredImages s now cb ok order in
  (forall k, k ∈ _getExpiredImages r.1 now
             <-> k ∈ _getExpiredImages s now /\ ok k = false)
  /\ ((forall k, k ∈ _getExpiredImages s now -> ok k = true) ->
      _getExpiredImages r.1 now = []).
Proof.
  intros Hperm r.
  assert (Hiff : forall k, k ∈ _getExpiredImages r.1 now
                           <-> k ∈ _getExpiredImages s now /\ ok k = false).
  { intros k. subst r.
    destruct (removeExpired_frame s now cb ok order) as [Hs _].
    destruct (removeExpired_lookup s now cb ok order k Hperm) as [Hgone Hkept].
    rewrite !elem_of_expired. split.
    - intros (e & He & Hexp). rewrite (isExpired_store _ _ _ _ Hs) in Hexp.
      destruct (decide (k ∈ _getExpiredImages s now)) as [Hin | Hout].
      + destruct (ok k) eqn:Hok.
        * rewrite (Hgone Hin eq_refl) in He. discriminate.
        * apply elem_of_expired in Hin. auto.
      + rewrite (Hkept (or_introl Hout)) in He.
        exfalso. apply Hout, elem_of_expired. eauto.
    - intros [(e & He & Hexp) Hok]. exists e.
      rewrite (Hkept (or_intror Hok)), (isExpired_store _ _ _ _ Hs). auto. }
  split; [exact Hiff |].
  intros Hall. apply elem_of_nil_inv. intros k Hin.
  apply Hiff in Hin as [Hin Hok]. rewrite (Hall k Hin) in Hok. discriminate.
Qed.

Lemma silent_more (t : list Effect) :
  Forall silent t -> uncaught t = [] /\ completions t = 0%nat.
Proof.
  intros Ht. unfold completions. split; [| apply (f_equal length (y := []))];
    apply (omap_none silent); try exact Ht;
    intros e He; destruct e; try contradiction; reflexivity.
Qed.

Lemma uncaught_app (t1 t2 : list Effect) :
  uncaught (t1 ++ t2) = uncaught t1 ++ uncaught t2.
Proof. apply omap_app. Qed.

Lemma completions_app (t1 t2 : list Effect) :
  completions (t1 ++ t2) = (completions t1 + completions t2)%nat.
Proof. unfold completions. rewrite omap_app. apply length_app. Qed.

(** The effects of a sweep are silent up to its last one or two. *)
Lemma removeExpired_effects
    (s : State) (now : Z) (cb : bool) (ok : string -> bool) (order : list string) :
  let r := _removeExpiredImages s now cb ok order in
  exists pre, Forall silent pre
    /\ ((_getExpiredImages s now = [] /\ r.2 = pre ++ onRestoreCompletion cb)
        \/ (_getExpiredImages s now <> [] /\ r.2 = pre ++ _updateAsyncStorage r.1 cb)).
Proof.
  intros r. subst r.
  destruct (decide (_getExpiredImages s now = [])) as [Hnil | Hne].
  - rewrite (removeExpired_none s now cb ok order Hnil). cbn [fst snd].
    exists (log s ["uris to remove from offline store"]
            ++ log s ["No images to remove:"]).
    split; [rewrite Forall_app; split; apply silent_log |].
    left. split; [exact Hnil |]. rewrite <- app_assoc. reflexivity.
  - rewrite (removeExpired_some s now cb ok order Hne). cbn [fst snd].
    destruct (unlinks_settled_frame ok order s) as (_ & _ & Hquiet).
    exists ((log s ["uris to remove from offline store"]
               ++ map (fun k => Unlink (unlinkPath s k)) (_getExpiredImages s now))
              ++ log s ["Found images to remove:"] ++ (unlinks_settled s ok order).2
              ++ log (unlinks_settled s ok order).1
                   ["removeExpiredImages completed callback"]).
    split.
    + rewrite !Forall_app. repeat split; auto using silent_log, silent_unlinks.
    + right. split; [exact Hne |]. rewrite <- !app_assoc. reflexivity.
Qed.

(** X11: a sweep whose caller passed no completion callback never signals
    completion.  When nothing is expired it ends in a TypeError, for it
    calls the missing callback; when something is expired it writes the
    dictionary once and raises no exception. *)
Theorem sweep_without_callback
    (s : State) (now : Z) (ok : string -> bool) (order : list string) :
  let r := _removeExpiredImages s now false ok order in
  completions r.2 = 0%nat
  /\ (_getExpiredImages s now = [] ->
      uncaught r.2 = ["TypeError: onRestoreCompletion is not a function"%string]
      /\ writes r.2 = [])
  /\ (_getExpiredImages s now <> [] ->
      uncaught r.2 = []
      /\ writes r.2 = [(storageKey r.1, JSON_stringify (entries r.1))]).
Proof.
  intros r.
  destruct (removeExpired_effects s now false ok order)
    as (pre & Hpre & [[Hnil Heq] | [Hne Heq]]); fold r in Heq;
    destruct (silent_more pre Hpre) as [Hu Hc];
    destruct (silent_facts pre Hpre) as (Hw & _);
    rewrite Heq, completions_app, uncaught_app, writes_app, Hu, Hc, Hw;
    (split; [reflexivity |]); split; intros Hcase; try contradiction;
    split; reflexivity.
Qed.

End SweepOutcome.

Lemma sweep_leaves_failed_only_witness :
  @_getExpiredImages Sample.platform
    (@_removeExpiredImages Sample.platform SampleSweep.aged 200000 true
       SampleSweep.always ["logo"%string]).1 200000 = []
  /\ ("logo"%string
        ∈ @_getExpiredImages Sample.platform
            (@_removeExpiredImages Sample.platform SampleSweep.aged 200000 true
               SampleSweep.never ["logo"%string]).1 200000).
Proof.
  assert (Hin : "logo"%string ∈ @_getExpiredImages Sample.platform SampleSweep.aged 200000)
    by (rewrite aged_expired; left).
  split.
  - destruct (@sweep_leaves_failed_only Sample.platform SampleSweep.aged 200000
                true SampleSweep.always ["logo"%string]) as [_ Hnone].
    + rewrite aged_expired. reflexivity.
    + apply Hnone. reflexivity.
  - destruct (@sweep_leaves_failed_only Sample.platform SampleSweep.aged 200000
                true SampleSweep.never ["logo"%string]) as [Hiff _].
    + rewrite aged_expired. reflexivity.
    + apply Hiff. split; [exact Hin | reflexivity].
Defined.

Lemma sweep_without_callback_witness :
  uncaught (@_removeExpiredImages Sample.platform instance 200000 false
              SampleSweep.always []).2
  = ["TypeError: onRestoreCompletion is not a function"%string]
  /\ uncaught (@_removeExpiredImages Sample.platform SampleSweep.aged 200000 false
                 SampleSweep.always ["logo"%string]).2 = [].
Proof.
  split.
  - destruct (@sweep_without_callback Sample.platform instance 200000
                SampleSweep.always []) as (_ & Hnone & _).
    destruct Hnone as [Hu _]; [reflexivity | exact Hu].
  - destruct (@sweep_without_callback Sample.platform SampleSweep.aged 200000
                SampleSweep.always ["logo"%string]) as (_ & _ & Hsome).
    destruct Hsome as [Hu _]; [rewrite aged_expired; discriminate | exact Hu].
Defined.

(** ** Restore *)

Section Restore.
Context `{Platform}.

(** X12: [restore] throws exactly when the configuration has no name or an
    empty one.  Otherwise it takes the name, reads the dictionary stored
    under that name, and keeps entries and handlers; a time-to-live that is
    absent or zero leaves the current one in place, and debug mode can be
    switched on by a configuration but never off. *)
Theorem restore_configuration (s : State) (config : Config) :
  (cfg_name config = None \/ cfg_name config = Some EmptyString ->
   restore s config = inl "Offline image store name is missing"%string)
  /\ (forall n, cfg_name config = Some n -> n <> EmptyString ->
      exists s1,
        restore s config = inr (s1, [GetItem ("@" +:+ n +:+ ":uris")])
        /\ name (store s1) = n
        /\ entries s1 = entries s /\ handlers s1 = handlers s
        /\ debugMode (store s1) = cfg_debugMode config || debugMode (store s)
        /\ (imageRemoveTimeout config = None \/ imageRemoveTimeout config = Some 0 ->
            storeImageTimeout (store s1) = storeImageTimeout (store s))
        /\ (forall t, imageRemoveTimeout config = Some t -> t <> 0 ->
            storeImageTimeout (store s1) = t)).
Proof.
  unfold restore. split.
  - intros [-> | ->]; reflexivity.
  - intros n -> Hn. destruct n as [| a n]; [contradiction |]. cbn [JsString.truthy].
    eexists. split; [reflexivity |]. cbn.
    repeat split.
    + intros [-> | ->]; reflexivity.
    + intros t -> Ht. destruct (Z.eqb_spec t 0); [contradiction | reflexivity].
Qed.

Lemma restore_onGetItem_parsed
    (s : State) (blob : string) (m : gmap string Entry)
    (now : Z) (cb : bool) (ok : string -> bool) (order : list string) :
  JSON_parse blob = Some m ->
  restore_onGetItem s (Some blob) now cb ok order
  = ((_removeExpiredImages (Object_assign s m) now cb ok order).1,
     log (Object_assign s m) ["Restored offline images entry dictionary"]
       ++ (_removeExpiredImages (Object_assign s m) now cb ok order).2).
Proof.
  intros Hm. unfold restore_onGetItem. rewrite Hm.
  destruct (_removeExpiredImages (Object_assign s m) now cb ok order).
  reflexivity.
Qed.

Lemma restore_onGetItem_null
    (s : State) (now : Z) (cb : bool) (ok : string -> bool) (order : list string) :
  restore_onGetItem s None now cb ok order
  = ((_removeExpiredImages s now cb ok order).1,
     log s ["Restored offline images entry dictionary"]
       ++ (_removeExpiredImages s now cb ok order).2).
Proof.
  unfold restore_onGetItem.
  destruct (_removeExpiredImages s now cb ok order). reflexivity.
Qed.

Lemma unlinks_settled_proto (ok : string -> bool) (order : list string) (s : State) :
  entriesProto (unlinks_settled s ok order).1 = entriesProto s.
Proof.
  revert s. induction order as [| k rest IH]; intros s; [reflexivity |].
  cbn [unlinks_settled].
  assert (Hhere : entriesProto (unlink_settled s k (ok k)).1 = entriesProto s)
    by (unfold unlink_settled; destruct (ok k); reflexivity).
  destruct (unlink_settled s k (ok k)) as [s1 t1]. cbn [fst] in Hhere.
  specialize (IH s1). destruct (unlinks_settled s1 ok rest) as [s2 t2].
  cbn [fst] in *. congruence.
Qed.

Lemma removeExpired_proto
    (s : State) (now : Z) (cb : bool) (ok : string -> bool) (order : list string) :
  entriesProto (_removeExpiredImages s now cb ok order).1 = entriesProto s.
Proof.
  destruct (decide (_getExpiredImages s now = [])) as [Hnil | Hne].
  - rewrite (removeExpired_none s now cb ok order Hnil). reflexivity.
  - rewrite (removeExpired_some s now cb ok order Hne). cbn [fst].
    apply unlinks_settled_proto.
Qed.

(** X13: the callback of [restore] assigns the stored dictionary to the one
    in memory: a stored entry replaces the entry in memory of the same key
    and is what the dictionary reads under that key, and an entry in memory
    whose key is not in the stored dictionary stays.  A stored entry is an
    own property of the dictionary, save that a stored entry under
    [__proto__] becomes the prototype of a dictionary that has no own
    property of that name.  The sweep that follows removes of the merged
    entries only expired ones. *)
Theorem restore_merges_stored_entries
    (s : State) (blob : string) (m : gmap string Entry)
    (now : Z) (cb : bool) (ok : string -> bool) (order : list string) :
  JSON_parse blob = Some m ->
  let merged := Object_assign s m in
  order ≡ₚ _getExpiredImages merged now ->
  let r := restore_onGetItem s (Some blob) now cb ok order in
  (forall k e, m !! k = Some e -> k ∉ _getExpiredImages merged now ->
     entries_get r.1 k = Item e
     /\ (k <> "__proto__"%string \/ is_Some (entries s !! k) ->
         entries r.1 !! k = Some e))
  /\ (forall k, m !! k = None -> k ∉ _getExpiredImages merged now ->
      entries r.1 !! k = entries s !! k)
  /\ (forall k, k ∈ _getExpiredImages merged now -> ok k = true ->
      entries r.1 !! k = None)
  /\ store r.1 = store s /\ handlers r.1 = handlers s.
Proof.
  intros Hm merged Hperm r. subst r.
  rewrite (restore_onGetItem_parsed s blob m now cb ok order Hm). cbn [fst].
  fold merged.
  destruct (removeExpired_frame merged now cb ok order) as [Hs Hh].
  pose proof (removeExpired_proto merged now cb ok order) as Hp.
  destruct (Object_assign_spec s m) as (Hms & Hmh & Hown & Hproto).
  fold merged in Hms, Hmh, Hown, Hproto.
  assert (Hkept : forall k, k ∉ _getExpiredImages merged now ->
            entries (_removeExpiredImages merged now cb ok order).1 !! k
            = entries merged !! k).
  { intros k Hout.
    destruct (removeExpired_lookup merged now cb ok order k Hperm) as [_ Hk].
    apply Hk. left. exact Hout. }
  split; [| split; [| split; [| split; congruence]]].
  - intros k e Hk Hout.
    assert (Hmerged : k <> "__proto__"%string \/ is_Some (entries s !! k) ->
                      entries (_removeExpiredImages merged now cb ok order).1 !! k
                      = Some e).
    { intros Hcase. rewrite (Hkept k Hout), (Hown k Hcase).
      apply lookup_union_Some_l, Hk. }
    split; [| exact Hmerged].
    destruct (decide (k <> "__proto__"%string \/ is_Some (entries s !! k)))
      as [Hcase | Hcase].
    + apply entries_get_own. auto.
    + assert (Hk' : k = "__proto__"%string)
        by (destruct (decide (k = "__proto__"%string)); [assumption | tauto]).
      subst k.
      assert (Hnone : entries s !! "__proto__"%string = None).
      { destruct (entries s !! "__proto__"%string) eqn:Hs0; [| reflexivity].
        exfalso. apply Hcase. right. eauto. }
      destruct (Hproto Hnone) as [Hfree Hslot]. rewrite Hk in Hslot.
      unfold entries_get. rewrite (Hkept _ Hout), Hfree, Hp, Hslot.
      reflexivity.
  - intros k Hk Hout. rewrite (Hkept k Hout).
    destruct (decide (k <> "__proto__"%string \/ is_Some (entries s !! k)))
      as [Hcase | Hcase].
    + rewrite (Hown k Hcase). apply lookup_union_r, Hk.
    + assert (Hk' : k = "__proto__"%string)
        by (destruct (decide (k = "__proto__"%string)); [assumption | tauto]).
      subst k.
      assert (Hnone : entries s !! "__proto__"%string = None).
      { destruct (entries s !! "__proto__"%string) eqn:Hs0; [| reflexivity].
        exfalso. apply Hcase. right. eauto. }
      destruct (Hproto Hnone) as [Hfree _]. congruence.
  - intros k Hin Hok.
    destruct (removeExpired_lookup merged now cb ok order k Hperm) as [Hgone _].
    auto.
Qed.

(** X14: when the stored blob does not parse, the callback of [restore]
    ends in the exception of [JSON.parse]: the store is left as it is,
    nothing is deleted and completion is never signalled.  When there is no
    blob, or the blob parses, completion is signalled exactly once, as the
    last effect, and no exception is raised. *)
Theorem restore_completes_unless_unparsable
    (s : State) (uris : option string)
    (now : Z) (ok : string -> bool) (order : list string) :
  let r := restore_onGetItem s uris now true ok order in
  (forall blob, uris = Some blob -> JSON_parse blob = None ->
     r = (s, [Uncaught "SyntaxError"]) /\ completions r.2 = 0%nat
     /\ unlinked r.2 = [])
  /\ (uris = None \/ (exists blob m, uris = Some blob /\ JSON_parse blob = Some m) ->
      completions r.2 = 1%nat /\ uncaught r.2 = []
      /\ exists pre, r.2 = pre ++ [Completion]).
Proof.
  intros r. split.
  - intros blob -> Hbad. subst r. unfold restore_onGetItem. rewrite Hbad.
    repeat split; reflexivity.
  - assert (Hsweep : forall s1,
              let q := _removeExpiredImages s1 now true ok order in
              completions (log s1 ["Restored offline images entry dictionary"] ++ q.2)
              = 1%nat
              /\ uncaught (log s1 ["Restored offline images entry dictionary"] ++ q.2) = []
              /\ exists pre,
                   log s1 ["Restored offline images entry dictionary"] ++ q.2
                   = pre ++ [Completion]).
    { intros s1 q.
      destruct (silent_more _ (silent_log s1
                  ["Restored offline images entry dictionary"%string])) as [Hlu Hlc].
      destruct (removeExpired_effects s1 now true ok order)
        as (pre & Hpre & [[_ Heq] | [_ Heq]]); fold q in Heq;
        destruct (silent_more pre Hpre) as [Hu Hc];
        rewrite Heq, !completions_app, !uncaught_app, Hlu, Hlc, Hu, Hc;
        (split; [reflexivity |]); (split; [reflexivity |]).
      - exists (log s1 ["Restored offline images entry dictionary"] ++ pre).
        rewrite <- app_assoc. reflexivity.
      - exists (log s1 ["Restored offline images entry dictionary"] ++ pre
                ++ [SetItem (storageKey q.1) (JSON_stringify (entries q.1))]).
        unfold _updateAsyncStorage. rewrite <- !app_assoc. reflexivity. }
    intros [-> | (blob & m & -> & Hm)]; subst r.
    + rewrite restore_onGetItem_null. cbn [snd]. apply (Hsweep s).
    + rewrite (restore_onGetItem_parsed s blob m now true ok order Hm). cbn [snd].
      apply (Hsweep (Object_assign s m)).
Qed.

End Restore.

Lemma restore_configuration_witness :
  @restore SampleCached.cached (mkConfig (Some EmptyString) (Some 60) true)
  = inl "Offline image store name is missing"%string
  /\ exists s1,
       @restore SampleCached.cached (mkConfig (Some "Gallery"%string) (Some 0) true)
       = inr (s1, [GetItem "@Gallery:uris"])
       /\ storeImageTimeout (store s1) = 259200.
Proof.
  split.
  - destruct (restore_configuration SampleCached.cached
                (mkConfig (Some EmptyString) (Some 60) true)) as [Hthrow _].
    apply Hthrow. right. reflexivity.
  - destruct (restore_configuration SampleCached.cached
                (mkConfig (Some "Gallery"%string) (Some 0) true)) as [_ Hok].
    destruct (Hok "Gallery"%string) as (s1 & Hr & _ & _ & _ & _ & Hkeep & _);
      [reflexivity | discriminate |].
    exists s1. split; [exact Hr |]. apply Hkeep. right. reflexivity.
Defined.

Lemma restore_merges_stored_entries_witness :
  entries (@restore_onGetItem SampleRestore.platform SampleSweep.aged
             (Some SampleRestore.blob) 200000 true SampleSweep.always []).1
    !! "logo"%string
  = Some (mkEntry (Some "900000000"%string) "/cache/Gallery" "logo.v2.png")
  /\ entries (@restore_onGetItem SampleRestore.platform SampleSweep.aged
                (Some SampleRestore.blob) 200000 true SampleSweep.always []).1
       !! "banner"%string
     = Some SampleSweep.banner.
Proof.
  assert (Hnone : @_getExpiredImages SampleRestore.platform
                    (Object_assign SampleSweep.aged SampleRestore.saved)
                    200000 = [])
    by (vm_compute; reflexivity).
  destruct (@restore_merges_stored_entries SampleRestore.platform SampleSweep.aged
              SampleRestore.blob SampleRestore.saved 200000 true
              SampleSweep.always []) as (Hstored & Hmemory & _).
  - vm_compute. reflexivity.
  - rewrite Hnone. reflexivity.
  - split.
    + apply Hstored; [vm_compute; reflexivity | | left; discriminate].
      rewrite Hnone. apply not_elem_of_nil.
    + rewrite Hmemory; [vm_compute; reflexivity | vm_compute; reflexivity |].
      rewrite Hnone. apply not_elem_of_nil.
Defined.

Lemma restore_completes_unless_unparsable_witness :
  completions (@restore_onGetItem Sample.platform SampleSweep.aged
                 (Some "not json"%string) 200000 true SampleSweep.always ["logo"%string]).2
  = 0%nat
  /\ completions (@restore_onGetItem Sample.platform SampleSweep.aged
                    None 200000 true SampleSweep.always ["logo"%string]).2 = 1%nat.
Proof.
  split.
  - destruct (@restore_completes_unless_unparsable Sample.platform SampleSweep.aged
                (Some "not json"%string) 200000 SampleSweep.always ["logo"%string])
      as [Hbad _].
    destruct (Hbad "not json"%string) as (_ & Hc & _); [reflexivity | reflexivity | exact Hc].
  - destruct (@restore_completes_unless_unparsable Sample.platform SampleSweep.aged
                None 200000 SampleSweep.always ["logo"%string]) as [_ Hgood].
    destruct Hgood as (Hc & _); [left; reflexivity | exact Hc].
Defined.

(** ** Clearing the store *)

Section ClearStore.
Context `{Platform}.

(** X15: on the exported store, which is frozen, [clearStore] deletes the
    base directory and nothing more: whether the deletion succeeds or not
    the dictionary keeps all its entries, nothing is written to
    AsyncStorage and the completion callback is never called, so every
    descriptor keeps the cached path it had.  On a store object that is not
    frozen a successful deletion empties the dictionary, writes the empty
    dictionary once and then calls the callback, and no descriptor has a
    cached path any more. *)
Theorem clearStore_on_frozen_store (s : State) (cb removed : bool) :
  let r := clearStore true s cb removed in
  let u := clearStore false s cb true in
  (r.1 = s /\ unlinked r.2 = [getBaseDir s] /\ writes r.2 = []
   /\ completions r.2 = 0%nat
   /\ forall props, getImageOfflinePath r.1 props = getImageOfflinePath s props)
  /\ (entries u.1 = ∅ /\ unlinked u.2 = [getBaseDir s]
      /\ writes u.2 = [(storageKey s, JSON_stringify ∅)]
      /\ completions u.2 = (if cb then 1 else 0)%nat
      /\ forall props, (getImageOfflinePath u.1 props).1 = None).
Proof.
  intros r u. subst r u. split.
  - unfold clearStore, log, _updateAsyncStorage.
    destruct removed, (debugMode (store s)); cbn; repeat split; reflexivity.
  - assert (Hcleared : forall props,
              (getImageOfflinePath (setEntriesProto (setEntries s ∅) None) props).1
              = None).
    { intros props. unfold getImageOfflinePath, _getEntry, entries_get.
      cbn [entries entriesProto setEntries setEntriesProto].
      rewrite lookup_empty. unfold inherited.
      destruct (decide ((_getEntryProps props).1 = "__proto__"%string));
        [reflexivity |].
      destruct (Object_prototype (_getEntryProps props).1); reflexivity. }
    unfold clearStore, log, _updateAsyncStorage.
    destruct cb, (debugMode (store s)); cbn [fst snd];
      (split; [reflexivity |]); (split; [reflexivity |]);
      (split; [reflexivity |]); (split; [reflexivity | exact Hcleared]).
Qed.

End ClearStore.

(** ** What the sweep deletes *)

Section SweepFiles.
Context `{Platform}.

Lemma unlinked_app (t1 t2 : list Effect) :
  unlinked (t1 ++ t2) = unlinked t1 ++ unlinked t2.
Proof. apply omap_app. Qed.

Lemma unlinked_log (s : State) (args : list string) : unlinked (log s args) = [].
Proof. unfold log. destruct (debugMode (store s)); reflexivity. Qed.

Lemma unlinked_unlinks (f : string -> string) (l : list string) :
  unlinked (map (fun k => Unlink (f k)) l) = map f l.
Proof. induction l as [| k l IH]; [reflexivity |]. cbn. f_equal. exact IH. Qed.

Lemma unlinked_settled (ok : string -> bool) (order : list string) (s : State) :
  unlinked (unlinks_settled s ok order).2 = [].
Proof.
  revert s. induction order as [| k rest IH]; intros s; [reflexivity |].
  cbn [unlinks_settled].
  assert (Hhere : unlinked (unlink_settled s k (ok k)).2 = []).
  { unfold unlink_settled. destruct (ok k); [reflexivity | apply unlinked_log]. }
  destruct (unlink_settled s k (ok k)) as [s1 t1]. cbn [snd] in Hhere.
  specialize (IH s1). destruct (unlinks_settled s1 ok rest) as [s2 t2].
  cbn [snd] in *. rewrite unlinked_app, Hhere, IH. reflexivity.
Qed.

Lemma removeExpired_unlinked
    (s : State) (now : Z) (cb : bool) (ok : string -> bool) (order : list string) :
  unlinked (_removeExpiredImages s now cb ok order).2
  = map (unlinkPath s) (_getExpiredImages s now).
Proof.
  destruct (decide (_getExpiredImages s now = [])) as [Hnil | Hne].
  - rewrite (removeExpired_none s now cb ok order Hnil), Hnil. cbn [snd].
    rewrite !unlinked_app, !unlinked_log. destruct cb; reflexivity.
  - rewrite (removeExpired_some s now cb ok order Hne). cbn [snd].
    rewrite !unlinked_app, !unlinked_log, unlinked_unlinks, unlinked_settled.
    unfold _updateAsyncStorage. destruct cb; cbn; rewrite app_nil_r; reflexivity.
Qed.

(** X16: the sweep asks for the deletion of one file for each expired key,
    the file of its entry, and of no other file.  In a store where every
    entry lies in the file named after its key, the file of an entry that
    is not expired is never among them. *)
Theorem sweep_spares_live_files
    (s : State) (now : Z) (cb : bool) (ok : string -> bool) (order : list string) :
  let r := _removeExpiredImages s now cb ok order in
  unlinked r.2 = map (unlinkPath s) (_getExpiredImages s now)
  /\ (wellPlaced s ->
      forall k e, entries s !! k = Some e -> k ∉ _getExpiredImages s now ->
                  localPath e ∉ unlinked r.2).
Proof.
  intros r. subst r. rewrite removeExpired_unlinked. split; [reflexivity |].
  intros Hwp k e Hk Hlive Hin.
  apply list_elem_of_fmap in Hin as (k' & Hpath & Hin').
  pose proof Hin' as Hexp. apply elem_of_expired in Hexp as (e' & Hk' & _).
  unfold unlinkPath in Hpath. rewrite Hk' in Hpath. cbn in Hpath.
  assert (k = k') by exact (wellPlaced_distinct_files s k k' e e' Hwp Hk Hk' Hpath).
  subst k'. contradiction.
Qed.

End SweepFiles.

(** ** What the event loop never does *)

Section Keeping.
Context `{Platform}.

Lemma keeping_notifying (t : list Effect) : Forall notifying t -> Forall keeping t.
Proof.
  intros Ht. apply (Forall_impl _ _ _ Ht).
  intros e He. destruct e; try contradiction; exact I.
Qed.

Lemma keeping_log (s : State) (args : list string) : Forall keeping (log s args).
Proof. apply keeping_notifying, notifying_log. Qed.

Lemma keeping_notify (s : State) (u : string) (e : Entry) :
  Forall keeping (_notify s u e).1.
Proof.
  unfold _notify. destruct (handlers_get s u); try constructor.
  apply keeping_notifying, notifying_each.
Qed.

Lemma keeping_getImage (s : State) (props : Props) :
  Forall keeping (_getImage s props).1.
Proof.
  assert (Hlogged : Forall keeping
                      (log s ["Image not exist offline"%string; uri (source props)]
                         ++ _downloadImage s props)).
  { rewrite Forall_app. split; [apply keeping_log | repeat constructor]. }
  unfold _getImage.
  destruct (_getEntry s props) as [| e | n | | t]; cbn [truthyValue fst];
    try assumption; try (repeat constructor; fail).
  - destruct (decide (basePath e = getBaseDir s)).
    + pose proof (keeping_notify s (uri (source props)) e) as Hn.
      destruct (_notify s (uri (source props)) e) as [t fine]. cbn [fst] in Hn.
      destruct fine; [destruct (reloadImage props) |]; cbn [fst];
        rewrite ?Forall_app; repeat split; auto using keeping_log;
        repeat constructor.
    + repeat constructor.
  - destruct (JsString.truthy t); cbn [fst];
      [repeat constructor | exact Hlogged].
Qed.

Lemma keeping_step (w : World) (i : Input) : Forall keeping (step w i).2.
Proof.
  assert (Hreq : forall props, requestProps i = Some props ->
                               Forall keeping (step w i).2).
  { intros props Hreq. destruct (accepted (state w) i) eqn:Hacc.
    - destruct (step_request_state w i props Hreq Hacc) as (_ & -> & _).
      apply keeping_getImage.
    - rewrite (step_rejected w i Hacc). repeat constructor. }
  destruct i as [h p | p | src | j ok now].
  - apply (Hreq p eq_refl).
  - apply (Hreq p eq_refl).
  - constructor.
  - destruct (tasks w !! j) as [[props | u e] |] eqn:Hj; [destruct ok | |].
    + rewrite (settle_fetch_done w j props now Hj). repeat constructor.
    + rewrite (settle_fetch_failed w j props now Hj). apply keeping_log.
    + rewrite (settle_write w j u e ok now Hj). cbn [snd].
      unfold _updateOfflineStore_resume. destruct ok; [| apply keeping_log].
      pose proof (keeping_notify (state w) u e) as Hn.
      destruct (_notify (state w) u e) as [t fine]. cbn [fst] in Hn.
      destruct fine; [exact Hn |].
      rewrite Forall_app. split; [exact Hn | apply keeping_log].
    + cbn [step]. unfold settle. rewrite Hj. constructor.
Qed.

Lemma keeping_run (inputs : list Input) (w : World) : Forall keeping (run w inputs).2.
Proof.
  revert w. induction inputs as [| i rest IH]; intros w; [constructor |].
  cbn [run]. pose proof (keeping_step w i) as H1.
  destruct (step w i) as [w1 t1]. specialize (IH w1).
  destruct (run w1 rest) as [w2 t2]. cbn [snd] in *.
  rewrite Forall_app. auto.
Qed.

(** X17: whatever requests, unsubscriptions and settled operations follow
    one another, the event loop never deletes a file, never reads
    AsyncStorage and never signals completion, and it never removes an
    entry from the dictionary: a key that has an entry keeps one. *)
Theorem event_loop_never_removes (w : World) (inputs : list Input) :
  unlinked (run w inputs).2 = []
  /\ reads (run w inputs).2 = []
  /\ completions (run w inputs).2 = 0%nat
  /\ (forall k, is_Some (entries (state w) !! k) ->
                is_Some (entries (state (run w inputs).1) !! k)).
Proof.
  pose proof (keeping_run inputs w) as Hk.
  split; [| split; [| split]].
  - apply (omap_none keeping); [| exact Hk].
    intros e He; destruct e; try contradiction; reflexivity.
  - apply (omap_none keeping); [| exact Hk].
    intros e He; destruct e; try contradiction; reflexivity.
  - unfold completions. apply (f_equal length (y := [])).
    apply (omap_none keeping); [| exact Hk].
    intros e He; destruct e; try contradiction; reflexivity.
  - intros k [e He].
    destruct (run_keeps_createdOn inputs w k e He) as (e' & He' & _). eauto.
Qed.

End Keeping.

Lemma aged_wellPlaced : @wellPlaced Sample.platform SampleSweep.aged.
Proof.
  intros k e Hk. unfold SampleSweep.aged in Hk. cbn [entries] in Hk.
  apply lookup_insert_Some in Hk as [[<- <-] | [_ Hk]].
  - split; [reflexivity |]. exists SampleKeys.logo. split; reflexivity.
  - apply lookup_singleton_Some in Hk as [<- <-].
    split; [reflexivity |]. exists SampleKeys.banner. split; reflexivity.
Qed.

Lemma sweep_spares_live_files_witness :
  unlinked (@_removeExpiredImages Sample.platform SampleSweep.aged 200000 true
              SampleSweep.always ["logo"%string]).2 = ["/cache/Gallery/logo.png"%string]
  /\ (localPath SampleSweep.banner
        ∉ unlinked (@_removeExpiredImages Sample.platform SampleSweep.aged 200000 true
                      SampleSweep.always ["logo"%string]).2).
Proof.
  destruct (@sweep_spares_live_files Sample.platform SampleSweep.aged 200000 true
              SampleSweep.always ["logo"%string]) as [Hfiles Hlive].
  split.
  - rewrite Hfiles, aged_expired. reflexivity.
  - apply (Hlive aged_wellPlaced "banner"%string SampleSweep.banner).
    + vm_compute. reflexivity.
    + rewrite aged_expired. intros Hin.
      apply list_elem_of_singleton in Hin. discriminate.
Defined.

Lemma event_loop_never_removes_witness :
  is_Some (entries (state (@run Sample.platform SampleRequests.quiet
                             [IPrefetch SampleRequests.reload;
                              ISettle 0 false "5000";
                              IUnsubscribe (source Sample.png)]).1)
             !! SampleDownload.key).
Proof.
  destruct (@event_loop_never_removes Sample.platform SampleRequests.quiet
              [IPrefetch SampleRequests.reload; ISettle 0 false "5000";
               IUnsubscribe (source Sample.png)]) as (_ & _ & _ & Hkeeps).
  apply Hkeeps. exists SampleCached.entry. vm_compute. reflexivity.
Defined.

(** ** After the store has been renamed *)

Section Rename.
Context `{Platform}.


End Rename.


(** ** Subscribing twice *)

Section Twice.
Context `{Platform}.

(** X19: a handler that subscribes twice for a validly cached descriptor,
    under a uri [Object.prototype] holds nothing under, is registered
    twice: the first subscription calls it once and the second calls it
    twice, each time with the cached path. *)
Theorem double_subscription_doubles_calls
    (w : World) (h : Handler) (props : Props) (e : Entry) :
  plainName (uri (source props)) ->
  _getEntry (state w) props = Item e ->
  basePath e = getBaseDir (state w) ->
  handlers (state w) !! uri (source props) = None ->
  throws h = false ->
  let c := callOf (uri (source props)) e h in
  calls (step w (ISubscribe h props)).2 = [c]
  /\ calls (step (step w (ISubscribe h props)).1 (ISubscribe h props)).2 = [c; c]
  /\ handlers (state (step (step w (ISubscribe h props)).1 (ISubscribe h props)).1)
       !! uri (source props) = Some [h; h].
Proof.
  intros Hplain He Hb Hnone Hh c. subst c.
  assert (Hacc : forall w0, accepted (state w0) (ISubscribe h props) = true)
    by (intros w0; exact (accepted_plain _ (ISubscribe h props) props eq_refl Hplain)).
  assert (Hlookup : forall w0,
            handlers (state (step w0 (ISubscribe h props)).1) !! uri (source props)
            = Some (default [] (handlers (state w0) !! uri (source props)) ++ [h])).
  { intros w0.
    destruct (step_request_state w0 (ISubscribe h props) props eq_refl (Hacc w0))
      as (_ & _ & _ & ->).
    apply register_lookup. specialize (Hacc w0). cbn [accepted] in Hacc.
    destruct (subscribe_register (state w0) h props); [eauto | discriminate]. }
  assert (Hcalls : forall w0 hs,
            _getEntry (state w0) props = Item e ->
            basePath e = getBaseDir (state w0) ->
            handlers (state (step w0 (ISubscribe h props)).1) !! uri (source props)
            = Some hs ->
            Forall (fun x => throws x = false) hs ->
            calls (step w0 (ISubscribe h props)).2
            = map (callOf (uri (source props)) e) hs).
  { intros w0 hs He0 Hb0 Hhs Hquiet.
    destruct (step_request_state w0 (ISubscribe h props) props eq_refl (Hacc w0))
      as (Hsame & -> & _).
    assert (He1 : _getEntry (state (step w0 (ISubscribe h props)).1) props = Item e)
      by (unfold _getEntry; rewrite (entries_get_frame _ _ _ Hsame); exact He0).
    assert (Hb1 : basePath e = getBaseDir (state (step w0 (ISubscribe h props)).1))
      by (rewrite (getBaseDir_frame _ _ Hsame); exact Hb0).
    pose proof (getImage_hit _ props e He1 Hb1 (or_introl Hplain)) as Hhit.
    rewrite Hhs in Hhit. cbn [default] in Hhit.
    destruct (Hhit Hquiet) as (Hc & _). exact Hc. }
  assert (H1 : handlers (state (step w (ISubscribe h props)).1) !! uri (source props)
               = Some [h])
    by (rewrite Hlookup, Hnone; reflexivity).
  assert (H2 : handlers (state (step (step w (ISubscribe h props)).1
                                  (ISubscribe h props)).1) !! uri (source props)
               = Some [h; h])
    by (rewrite Hlookup, H1; reflexivity).
  destruct (step_request_state w (ISubscribe h props) props eq_refl (Hacc w))
    as (Hsame & _).
  split; [| split; [| exact H2]].
  - apply (Hcalls w [h]); auto.
  - apply (Hcalls _ [h; h]); auto.
    + unfold _getEntry. rewrite (entries_get_frame _ _ _ Hsame). exact He.
    + rewrite (getBaseDir_frame _ _ Hsame). exact Hb.
Qed.

End Twice.

Lemma double_subscription_doubles_calls_witness :
  length (calls (@step Sample.platform
                   (@step Sample.platform SampleRequests.quiet
                      (ISubscribe SampleNotify.second Sample.png)).1
                   (ISubscribe SampleNotify.second Sample.png)).2) = 2%nat.
Proof.
  destruct (@double_subscription_doubles_calls Sample.platform SampleRequests.quiet
              SampleNotify.second Sample.png SampleCached.entry) as (_ & Htwice & _).
  - split; [discriminate | reflexivity].
  - vm_compute. reflexivity.
  - reflexivity.
  - reflexivity.
  - reflexivity.
  - rewrite Htwice. reflexivity.
Defined.
